(** * pinotdb.db: result decoding, parameter escaping and the cursor state machine

    A shallow embedding of [pinotdb/db.py].  Python values are a tagged sum,
    dictionaries are insertion-ordered association lists (as Python's [dict]
    and [OrderedDict] are), raised exceptions are the [Raise] case of a result
    type, and the mutable [Cursor] and [Connection] objects are records passed
    through every method together with the method's outcome. *)

From Stdlib Require Import ZArith List String Ascii Bool Lia.
From Stdlib Require Import Floats.
Import ListNotations.
Local Open Scope string_scope.
Local Open Scope Z_scope.
Set Warnings "-register-all".

(** ** Python values *)

(** The values that travel through the module: JSON scalars, arrays and
    objects, plus the tuples a caller may pass as a query parameter. *)
Inductive Value : Type :=
| VNone
| VBool (b : bool)
| VInt (n : Z)
| VFloat (x : float)
| VStr (s : string)
| VList (xs : list Value)
| VTuple (xs : list Value)
| VDict (items : list (string * Value)).

(** The classes the source names in its [isinstance] tests. *)
Inductive PyClass : Type := c_str | c_int | c_float | c_bool | c_list | c_tuple.

(** [isinstance(value, cls)].  In Python [bool] is a subclass of [int], so a
    boolean is an instance of both. *)
Definition instance_of (value : Value) (cls : PyClass) : bool :=
  match value, cls with
  | VStr _, c_str => true
  | VInt _, c_int => true
  | VBool _, c_int => true
  | VBool _, c_bool => true
  | VFloat _, c_float => true
  | VList _, c_list => true
  | VTuple _, c_tuple => true
  | _, _ => false
  end.

(** [isinstance(value, (cls1, cls2, ...))]. *)
Definition isinstance (value : Value) (classes : list PyClass) : bool :=
  existsb (instance_of value) classes.

(** [class Type(Enum)]. *)
Inductive Type_ : Type := STRING | NUMBER | BOOLEAN.

Definition Type_eqb (a b : Type_) : bool :=
  match a, b with
  | STRING, STRING | NUMBER, NUMBER | BOOLEAN, BOOLEAN => true
  | _, _ => false
  end.

(** ** Insertion-ordered dictionaries *)

Section Dict.
Context {K V : Type} (eqb : K -> K -> bool).

Definition dict : Type := list (K * V).

(** [d.get(k)]. *)
Fixpoint dict_get (k : K) (d : dict) : option V :=
  match d with
  | [] => None
  | (k', v) :: rest => if eqb k k' then Some v else dict_get k rest
  end.

(** [k in d]. *)
Definition dict_mem (k : K) (d : dict) : bool :=
  match dict_get k d with Some _ => true | None => false end.

(** [d[k] = v]: an existing key keeps its position, a new key goes last. *)
Fixpoint dict_set (k : K) (v : V) (d : dict) : dict :=
  match d with
  | [] => [(k, v)]
  | (k', v') :: rest =>
      if eqb k k' then (k', v) :: rest else (k', v') :: dict_set k v rest
  end.

(** [d.update(pairs)], also [dict(pairs)] from the empty dictionary. *)
Definition dict_update (d : dict) (pairs : list (K * V)) : dict :=
  fold_left (fun acc kv => dict_set (fst kv) (snd kv) acc) pairs d.
End Dict.

Arguments dict : clear implicits.

Fixpoint list_eqb {A : Type} (eqb : A -> A -> bool) (l1 l2 : list A) : bool :=
  match l1, l2 with
  | [], [] => true
  | x :: l1', y :: l2' => eqb x y && list_eqb eqb l1' l2'
  | _, _ => false
  end.

(** Equality of lists (and tuples) of strings. *)
Definition strs_eqb : list string -> list string -> bool := list_eqb String.eqb.

(** ** The JSON payload of the query endpoint *)

(** One element of a metric's ["groupByResult"]. *)
Record GroupByEntry : Type := mkGroupByEntry {
  gb_group : list string;
  gb_value : Value
}.

(** One element of ["aggregationResults"]; an absent key is [None]. *)
Record Metric : Type := mkMetric {
  agg_function : option string;
  agg_groupByColumns : option (list string);
  agg_groupByResult : option (list GroupByEntry);
  agg_value : option Value
}.

(** ["selectionResults"]. *)
Record Selection : Type := mkSelection {
  sel_columns : list string;
  sel_results : list (list Value)
}.

Record Payload : Type := mkPayload {
  numServersResponded : option Z;
  numServersQueried : option Z;
  exceptions : option (list Value);
  aggregationResults : option (list Metric);
  selectionResults : option Selection
}.

(** What [requests.post] hands back: the status code, the raw text, and the
    decoded body ([None] when [r.json()] raises). *)
Record Response : Type := mkResponse {
  status_code : Z;
  text : string;
  json : option Payload
}.

(** A decoded row: column name to value, in column order. *)
Definition Row : Type := dict string Value.

(** ** Exceptions *)

(** Modelled from the spec: [pinotdb/exceptions.py] is not among the sources.
    The classes are the ones [db.py] raises, with the hierarchy of the
    standard database-client contract ([Error] is the root of the package's
    own classes); the remaining ones are Python built-ins. *)
Inductive ExcClass : Type :=
| Error | DatabaseError | ProgrammingError | NotSupportedError
| KeyError | IndexError | TypeError | AttributeError | StopIteration.

(** [except exceptions.Error] catches the package's own classes only. *)
Definition is_exceptions_Error (c : ExcClass) : bool :=
  match c with
  | Error | DatabaseError | ProgrammingError | NotSupportedError => true
  | KeyError | IndexError | TypeError | AttributeError | StopIteration =>
      false
  end.

(** The text of an exception, one constructor per message template of the
    source, carrying the values the template interpolates. *)
Inductive Message : Type :=
| MsgAlreadyClosed (class_name : string)
| MsgCalledBeforeExecute
| MsgDifferingColumnType (name : string) (current_type new_type : Type_)
| MsgColsDiffer (metric_name : string)
    (gby_cols_for_metric group_by_cols : list string)
| MsgUnknownType (value : Value)
| MsgRawResponse (query : string) (raw : string)
| MsgTimedOut (query : string)
    (num_servers_queried num_servers_responded : Z)
| MsgReturnedError (query : string) (status : Z) (payload : Payload)
| MsgExceptions (entries : list Value)
| MsgTotalAndGroupBy (aggregation_results : list Metric)
| MsgExpectedToContain (agg_result : Metric) (expected got : nat)
| MsgTotalWithGbyCols (gby_cols : list string)
    (aggregation_results : list Metric)
| MsgGroupValsLen (expected got : nat)
| MsgMetricValsLen (expected got : nat)
| MsgNameCollision (expected got : nat) (row : Row)
| MsgExecutemany
| MsgBuiltin (detail : string).

Record Exc : Type := mkExc { exc_class : ExcClass; exc_msg : Message }.

(** The outcome of a call that may raise. *)
Inductive Res (A : Type) : Type :=
| Ok (a : A)
| Raise (e : Exc).

Arguments Ok {A} a.
Arguments Raise {A} e.

Definition bind {A B : Type} (m : Res A) (f : A -> Res B) : Res B :=
  match m with
  | Ok a => f a
  | Raise e => Raise e
  end.

Notation "x <- m ;; k" := (bind m (fun x => k))
  (at level 61, m at next level, right associativity).

Definition raise {A : Type} (c : ExcClass) (m : Message) : Res A :=
  Raise (mkExc c m).

(** ** [get_type] *)

(** The three tests are taken in the order of the source. *)
Definition get_type (value : Value) : Res Type_ :=
  if isinstance value [c_str] then Ok STRING
  else if isinstance value [c_int; c_float] then Ok NUMBER
  else if isinstance value [c_bool] then Ok BOOLEAN
  else raise Error (MsgUnknownType value).

(** ** [escape] and [apply_parameters] *)

Definition quote : ascii := "'"%char.

(** [s.replace("'", "''")]. *)
Fixpoint replace_quote (s : string) : string :=
  match s with
  | EmptyString => EmptyString
  | String c rest =>
      if Ascii.eqb c quote
      then String quote (String quote (replace_quote rest))
      else String c (replace_quote rest)
  end.

(** ["'{}'".format(body)]. *)
Definition quoted (body : string) : string :=
  String quote (body ++ String quote EmptyString).

(** [value == '*']: only a string compares equal to a string. *)
Definition eq_star (value : Value) : bool :=
  match value with
  | VStr s => String.eqb s "*"
  | _ => false
  end.

Definition str_of (value : Value) : string :=
  match value with VStr s => s | _ => EmptyString end.

(** The truth value of a boolean (the only use is on an instance of
    [bool]). *)
Definition truth (value : Value) : bool :=
  match value with VBool b => b | _ => false end.

(** [sep.join(items)]: every item has to be a string. *)
Fixpoint str_join (sep : string) (items : list (Res Value)) : Res string :=
  match items with
  | [] => Ok EmptyString
  | item :: rest =>
      v <- item ;;
      if isinstance v [c_str] then
        match rest with
        | [] => Ok (str_of v)
        | _ => tail <- str_join sep rest ;; Ok (str_of v ++ sep ++ tail)
        end
      else raise TypeError (MsgBuiltin "sequence item: expected str instance")
  end.

(** The chain of tests is the source's; a value that passes none of them
    falls off the end of the function, which returns [None]. *)
Fixpoint escape (value : Value) : Res Value :=
  if eq_star value then Ok value
  else if isinstance value [c_str] then
    Ok (VStr (quoted (replace_quote (str_of value))))
  else if isinstance value [c_int; c_float] then Ok value
  else if isinstance value [c_bool] then
    Ok (VStr (if truth value then "TRUE" else "FALSE"))
  else if isinstance value [c_list; c_tuple] then
    match value with
    | VList xs | VTuple xs =>
        s <- str_join ", " (map escape xs) ;; Ok (VStr s)
    | _ => Ok VNone
    end
  else Ok VNone.

(** [{key: escape(value) for key, value in parameters.items()}], built in
    iteration order. *)
Fixpoint escape_items (items : list (string * Value))
  (acc : dict string Value) : Res (dict string Value) :=
  match items with
  | [] => Ok acc
  | (key, value) :: rest =>
      e <- escape value ;;
      escape_items rest (dict_set String.eqb key e acc)
  end.

Section Templating.
(** Python's [template % mapping] on strings is a built-in of the language,
    not code of this module: it is a parameter of the development. *)
Variable percent_format : string -> dict string Value -> Res string.

Definition apply_parameters (operation : string)
  (parameters : dict string Value) : Res string :=
  escaped_parameters <- escape_items parameters [] ;;
  percent_format operation escaped_parameters.
End Templating.

(** ** Generic loops over a list that may raise *)

Fixpoint foldM {A S : Type} (f : S -> A -> Res S) (l : list A) (s : S)
  : Res S :=
  match l with
  | [] => Ok s
  | x :: rest => s' <- f s x ;; foldM f rest s'
  end.

Fixpoint mapM {A B : Type} (f : A -> Res B) (l : list A) : Res (list B) :=
  match l with
  | [] => Ok []
  | x :: rest => y <- f x ;; ys <- mapM f rest ;; Ok (y :: ys)
  end.

(** [enumerate(l)]. *)
Definition enumerate {A : Type} (l : list A) : list (nat * A) :=
  combine (seq 0 (List.length l)) l.

(** [d[k]] as an expression: [KeyError] when the key is absent. *)
Definition dict_item {K V : Type} (eqb : K -> K -> bool) (k : K)
  (d : dict K V) : Res V :=
  match dict_get eqb k d with
  | Some v => Ok v
  | None => raise KeyError (MsgBuiltin "key")
  end.

(** [l[i]] as an expression, for a non-negative index. *)
Definition list_item {A : Type} (l : list A) (i : nat) : Res A :=
  match nth_error l i with
  | Some x => Ok x
  | None => raise IndexError (MsgBuiltin "list index out of range")
  end.

(** [l[i] = v], for a non-negative index. *)
Fixpoint list_assign {A : Type} (l : list A) (i : nat) (v : A)
  : Res (list A) :=
  match l, i with
  | [], _ => raise IndexError (MsgBuiltin "list assignment index out of range")
  | _ :: rest, O => Ok (v :: rest)
  | x :: rest, S i' => rest' <- list_assign rest i' v ;; Ok (x :: rest')
  end.

(** ** [get_description_from_rows] *)

(** One entry of [Cursor.description]: the name, the inferred type, and the
    five slots the source always leaves [None]. *)
Record ColumnDescriptor : Type := mkColumnDescriptor {
  col_name : string;
  type_code : option Type_;
  display_size : option Z;
  internal_size : option Z;
  precision : option Z;
  scale : option Z;
  null_ok : option Z
}.

(** The loop state: the [types] dictionary and [unknown_columns]. *)
Definition ScanState : Type := (dict string (option Type_) * Z)%type.

Definition is_None (value : Value) : bool :=
  match value with VNone => true | _ => false end.

(** The body of [for name, value in row.items()]. *)
Definition scan_item (st : ScanState) (item : string * Value)
  : Res ScanState :=
  let '(types, unknown_columns) := st in
  let '(name, value) := item in
  let '(types, unknown_columns) :=
    if negb (dict_mem String.eqb name types)
    then (dict_set String.eqb name None types, unknown_columns + 1)
    else (types, unknown_columns) in
  current_type <- dict_item String.eqb name types ;;
  if negb (is_None value) then
    new_type <- get_type value ;;
    match current_type with
    | None =>
        Ok (dict_set String.eqb name (Some new_type) types,
            unknown_columns - 1)
    | Some current =>
        if negb (Type_eqb new_type current)
        then raise DatabaseError (MsgDifferingColumnType name current new_type)
        else Ok (types, unknown_columns)
    end
  else Ok (types, unknown_columns).

(** [for row in rows], with its [break] once no column is left unknown. *)
Fixpoint scan_rows (st : ScanState) (rows : list Row) : Res ScanState :=
  match rows with
  | [] => Ok st
  | row :: rest =>
      st' <- foldM scan_item row st ;;
      if snd st' <=? 0 then Ok st' else scan_rows st' rest
  end.

Definition describe (entry : string * option Type_) : ColumnDescriptor :=
  mkColumnDescriptor (fst entry) (snd entry) None None None None None.

Definition get_description_from_rows (rows : list Row)
  : Res (list ColumnDescriptor) :=
  st <- scan_rows ([], 0) rows ;;
  Ok (map describe (fst st)).

(** ** [get_group_by_column_names] *)

Definition is_empty {A : Type} (l : list A) : bool :=
  match l with [] => true | _ => false end.

Definition get_or {A : Type} (o : option A) (default : A) : A :=
  match o with Some a => a | None => default end.

Fixpoint group_by_loop (group_by_cols : list string)
  (aggregation_results : list Metric) : Res (list string) :=
  match aggregation_results with
  | [] => Ok group_by_cols
  | metric :: rest =>
      let metric_name := get_or (agg_function metric) "noname" in
      let gby_cols_for_metric := get_or (agg_groupByColumns metric) [] in
      if negb (is_empty group_by_cols)
         && negb (strs_eqb group_by_cols gby_cols_for_metric)
      then raise DatabaseError
             (MsgColsDiffer metric_name gby_cols_for_metric group_by_cols)
      else if is_empty group_by_cols
      then group_by_loop gby_cols_for_metric rest
      else group_by_loop group_by_cols rest
  end.

Definition get_group_by_column_names (aggregation_results : list Metric)
  : Res (list string) :=
  group_by_loop [] aggregation_results.

(** ** The aggregation branch of [Cursor.execute] *)

(** [gby_rows]: group-by values to the array of metric values, in first-seen
    order. *)
Definition GbyRows : Type := dict (list string) (list Value).

(** [total_group_vals_key = ()]. *)
Definition total_group_vals_key : list string := [].

(** [''.join(parts)] on strings. *)
Definition join_empty (parts : list string) : string :=
  fold_right String.append EmptyString parts.

(** The arity check and the repair of a group-value list (the source notes
    that surplus values come from poor escaping in the results). *)
Definition group_key (gby_cols : list string) (agg_result : Metric)
  (group_values : list string) : Res (list string) :=
  if (List.length group_values <? List.length gby_cols)%nat then
    raise DatabaseError
      (MsgExpectedToContain agg_result (List.length gby_cols)
         (List.length group_values))
  else if (List.length gby_cols <? List.length group_values)%nat then
    let extra := (List.length group_values - List.length gby_cols)%nat in
    let new_group_values := skipn extra group_values in
    first <- list_item new_group_values 0 ;;
    list_assign new_group_values 0
      (join_empty (firstn extra group_values) ++ first)
  else Ok group_values.

(** The body of [for gb_result in agg_result['groupByResult']]. *)
Definition add_group_result (gby_cols : list string) (num_metrics i : nat)
  (agg_result : Metric) (gby_rows : GbyRows) (gb_result : GroupByEntry)
  : Res GbyRows :=
  group_values_key <- group_key gby_cols agg_result (gb_group gb_result) ;;
  let gby_rows :=
    if negb (dict_mem strs_eqb group_values_key gby_rows)
    then dict_set strs_eqb group_values_key (repeat VNone num_metrics) gby_rows
    else gby_rows in
  slots <- dict_item strs_eqb group_values_key gby_rows ;;
  slots' <- list_assign slots i (gb_value gb_result) ;;
  Ok (dict_set strs_eqb group_values_key slots' gby_rows).

(** The body of [for i, agg_result in enumerate(aggregation_results)]. *)
Definition add_metric (aggregation_results : list Metric)
  (gby_cols : list string) (num_metrics : nat) (gby_rows : GbyRows)
  (indexed : nat * Metric) : Res GbyRows :=
  let '(i, agg_result) := indexed in
  match agg_groupByResult agg_result with
  | Some group_by_result =>
      if dict_mem strs_eqb total_group_vals_key gby_rows then
        raise DatabaseError (MsgTotalAndGroupBy aggregation_results)
      else
        foldM (add_group_result gby_cols num_metrics i agg_result)
          group_by_result gby_rows
  | None =>
      let gby_rows :=
        if negb (dict_mem strs_eqb total_group_vals_key gby_rows)
        then dict_set strs_eqb total_group_vals_key
               (repeat VNone num_metrics) gby_rows
        else gby_rows in
      if negb (List.length gby_rows =? 1)%nat then
        raise DatabaseError (MsgTotalAndGroupBy aggregation_results)
      else if (0 <? List.length gby_cols)%nat then
        raise DatabaseError (MsgTotalWithGbyCols gby_cols aggregation_results)
      else
        v <- match agg_value agg_result with
             | Some v => Ok v
             | None => raise KeyError (MsgBuiltin "value")
             end ;;
        slots <- dict_item strs_eqb total_group_vals_key gby_rows ;;
        slots' <- list_assign slots i v ;;
        Ok (dict_set strs_eqb total_group_vals_key slots' gby_rows)
  end.

(** The body of [for group_vals, metric_vals in gby_rows.items()]. *)
Definition make_row (gby_cols metric_names : list string)
  (item : list string * list Value) : Res Row :=
  let '(group_vals, metric_vals) := item in
  let num_groups_and_metrics :=
    (List.length gby_cols + List.length metric_names)%nat in
  if negb (List.length group_vals =? List.length gby_cols)%nat then
    raise DatabaseError
      (MsgGroupValsLen (List.length gby_cols) (List.length group_vals))
  else if negb (List.length metric_vals =? List.length metric_names)%nat then
    raise DatabaseError
      (MsgMetricValsLen (List.length metric_names) (List.length metric_vals))
  else
    let row :=
      dict_update String.eqb [] (combine gby_cols (map VStr group_vals)) in
    let row := dict_update String.eqb row (combine metric_names metric_vals) in
    if negb (List.length row =? num_groups_and_metrics)%nat then
      raise DatabaseError
        (MsgNameCollision num_groups_and_metrics (List.length row) row)
    else Ok row.

(** [agg_result['function']]. *)
Definition metric_function (agg_result : Metric) : Res string :=
  match agg_function agg_result with
  | Some f => Ok f
  | None => raise KeyError (MsgBuiltin "function")
  end.

(** The merge of the per-metric results into [gby_rows]. *)
Definition merge_metrics (aggregation_results : list Metric)
  (gby_cols : list string) (num_metrics : nat) : Res GbyRows :=
  foldM (add_metric aggregation_results gby_cols num_metrics)
    (enumerate aggregation_results) [].

(** The whole [if 'aggregationResults' in payload] block. *)
Definition aggregation_rows (aggregation_results : list Metric)
  : Res (list Row) :=
  gby_cols <- get_group_by_column_names aggregation_results ;;
  metric_names <- mapM metric_function aggregation_results ;;
  let num_metrics := List.length metric_names in
  gby_rows <- merge_metrics aggregation_results gby_cols num_metrics ;;
  mapM (make_row gby_cols metric_names) gby_rows.

(** The [elif 'selectionResults' in payload] block. *)
Definition selection_rows (results : Selection) : list Row :=
  map (fun result =>
         dict_update String.eqb [] (combine (sel_columns results) result))
      (sel_results results).

(** The three response shapes. *)
Definition payload_rows (payload : Payload) : Res (list Row) :=
  match aggregationResults payload with
  | Some aggregation_results => aggregation_rows aggregation_results
  | None =>
      match selectionResults payload with
      | Some results => Ok (selection_rows results)
      | None => Ok []
      end
  end.

(** ** The checks on a decoded payload *)

(** The replica counts, the status code and the exceptions list, in the order
    of the source. *)
Definition check_payload (query : string) (status : Z) (payload : Payload)
  : Res unit :=
  let num_servers_responded := get_or (numServersResponded payload) (-1) in
  let num_servers_queried := get_or (numServersQueried payload) (-1) in
  if (num_servers_queried >? num_servers_responded)
     || (num_servers_responded =? -1)
     || (num_servers_queried =? -1)
  then raise DatabaseError
         (MsgTimedOut query num_servers_queried num_servers_responded)
  else if negb (status =? 200) then
    raise ProgrammingError (MsgReturnedError query status payload)
  else if negb (is_empty (get_or (exceptions payload) [])) then
    raise DatabaseError (MsgExceptions (get_or (exceptions payload) []))
  else Ok tt.

(** ** Cursors *)

(** A materialised row: the tuple of a row's values.  [namedtuple] is asked to
    rename invalid field names, so building the class does not raise; calling
    it raises [TypeError] unless it gets one value per field. *)
Definition RowTuple : Type := list Value.

Definition make_Row (fields : list string) (row : Row) : Res RowTuple :=
  if (List.length row =? List.length fields)%nat
  then Ok (map snd row)
  else raise TypeError (MsgBuiltin "wrong number of arguments")%string.

(** The attributes of a [Cursor] that the methods read or write (the URL,
    headers and debug flag only feed the transport and the log). *)
Record Cursor : Type := mkCursor {
  arraysize : Z;
  cursor_closed : bool;
  description : option (list ColumnDescriptor);
  rowcount : Z;
  _results : option (list RowTuple)
}.

(** [Cursor.__init__]. *)
Definition Cursor_init : Cursor := mkCursor 1 false None (-1) None.

Definition set_closed (self : Cursor) : Cursor :=
  mkCursor (arraysize self) true (description self) (rowcount self)
    (_results self).

Definition set_description (d : option (list ColumnDescriptor))
  (self : Cursor) : Cursor :=
  mkCursor (arraysize self) (cursor_closed self) d (rowcount self)
    (_results self).

Definition set_results (r : option (list RowTuple)) (self : Cursor) : Cursor :=
  mkCursor (arraysize self) (cursor_closed self) (description self)
    (rowcount self) r.

(** A method: the outcome of the call and the object after it. *)
Definition Method (S A : Type) : Type := S -> Res A * S.

(** Objects with a [closed] attribute and a class name. *)
Class Closable (S : Type) : Type := {
  closed : S -> bool;
  class_name : string
}.

#[global] Instance Cursor_Closable : Closable Cursor :=
  {| closed := cursor_closed; class_name := "Cursor" |}.

(** The decorator [check_closed]. *)
Definition check_closed {S A : Type} `{Closable S} (f : Method S A)
  : Method S A :=
  fun self =>
    if closed self
    then (raise Error (MsgAlreadyClosed class_name), self)
    else f self.

(** The decorator [check_result]. *)
Definition check_result {A : Type} (f : Method Cursor A) : Method Cursor A :=
  fun self =>
    match _results self with
    | None => (raise Error MsgCalledBeforeExecute, self)
    | Some _ => f self
    end.

(** [l[:n]] and [l[n:]] with Python's treatment of a negative bound. *)
Definition slice_bound {A : Type} (l : list A) (n : Z) : nat :=
  if n <? 0 then Z.to_nat (Z.max 0 (Z.of_nat (List.length l) + n))
  else Z.to_nat n.

Definition slice_to {A : Type} (l : list A) (n : Z) : list A :=
  firstn (slice_bound l n) l.

Definition slice_from {A : Type} (l : list A) (n : Z) : list A :=
  skipn (slice_bound l n) l.

Definition Cursor_close : Method Cursor unit :=
  check_closed (fun self => (Ok tt, set_closed self)).

Definition Cursor_executemany : Method Cursor unit :=
  check_closed (fun self => (raise NotSupportedError MsgExecutemany, self)).

Definition Cursor_fetchone : Method Cursor (option RowTuple) :=
  check_result (check_closed (fun self =>
    match _results self with
    | Some (row :: rest) => (Ok (Some row), set_results (Some rest) self)
    | Some [] => (Ok None, self)
    | None => (raise AttributeError (MsgBuiltin "pop"), self)
    end)).

Definition Cursor_fetchmany (size : option Z) : Method Cursor (list RowTuple) :=
  check_result (check_closed (fun self =>
    let size :=
      match size with
      | Some n => if n =? 0 then arraysize self else n
      | None => arraysize self
      end in
    match _results self with
    | Some results =>
        (Ok (slice_to results size),
         set_results (Some (slice_from results size)) self)
    | None => (raise TypeError (MsgBuiltin "subscript"), self)
    end)).

Definition Cursor_setinputsizes : Method Cursor unit :=
  check_closed (fun self => (Ok tt, self)).

Definition Cursor_setoutputsizes : Method Cursor unit :=
  check_closed (fun self => (Ok tt, self)).

Definition Cursor_iter : Method Cursor unit :=
  check_closed (fun self => (Ok tt, self)).

Definition Cursor_next : Method Cursor RowTuple :=
  check_closed (fun self =>
    match Cursor_fetchone self with
    | (Ok (Some output), self') => (Ok output, self')
    | (Ok None, self') => (raise StopIteration (MsgBuiltin EmptyString), self')
    | (Raise e, self') => (Raise e, self')
    end).

Definition is_StopIteration (e : Exc) : bool :=
  match exc_class e with StopIteration => true | _ => false end.

(** The loop of [list(iterator)]: call [__next__] until it raises
    [StopIteration].  [None] means the bound on the number of calls was
    reached. *)
Fixpoint collect (fuel : nat) (self : Cursor)
  : option (Res (list RowTuple) * Cursor) :=
  match fuel with
  | O => None
  | S fuel' =>
      match Cursor_next self with
      | (Ok row, self') =>
          match collect fuel' self' with
          | Some (Ok rows, self'') => Some (Ok (row :: rows), self'')
          | other => other
          end
      | (Raise e, self') =>
          if is_StopIteration e then Some (Ok [], self')
          else Some (Raise e, self')
      end
  end.

Definition buffered (self : Cursor) : nat :=
  match _results self with Some results => List.length results | None => O end.

(** [list(self)]: every call of [__next__] but the last removes a row, so one
    call more than there are buffered rows is enough. *)
Definition Cursor_list : Method Cursor (list RowTuple) :=
  fun self =>
    match Cursor_iter self with
    | (Raise e, self') => (Raise e, self')
    | (Ok _, self') =>
        match collect (S (buffered self')) self' with
        | Some out => out
        | None => (Ok [], self')
        end
    end.

Definition Cursor_fetchall : Method Cursor (list RowTuple) :=
  check_result (check_closed Cursor_list).

Section Execute.
Variable percent_format : string -> dict string Value -> Res string.

(** Everything [Cursor.execute] does before it touches the cursor: the
    query text, the decoded body, the checks and the rows. *)
Definition response_rows (operation : string)
  (parameters : option (dict string Value)) (r : Response)
  : Res (list Row) :=
  query <- apply_parameters percent_format operation (get_or parameters []) ;;
  payload <- match json r with
             | Some payload => Ok payload
             | None => raise DatabaseError (MsgRawResponse query (text r))
             end ;;
  _ <- check_payload query (status_code r) payload ;;
  payload_rows payload.

(** [Cursor.execute]; [r] is what [requests.post] returned for the query. *)
Definition Cursor_execute (operation : string)
  (parameters : option (dict string Value)) (r : Response)
  : Method Cursor unit :=
  check_closed (fun self =>
    match response_rows operation parameters r with
    | Raise e => (Raise e, self)
    | Ok rows =>
        let self := set_results (Some []) (set_description None self) in
        match rows with
        | [] => (Ok tt, self)
        | first_row :: _ =>
            match get_description_from_rows rows with
            | Raise e => (Raise e, self)
            | Ok d =>
                let self := set_description (Some d) self in
                match mapM (make_Row (map fst first_row)) rows with
                | Raise e => (Raise e, self)
                | Ok results => (Ok tt, set_results (Some results) self)
                end
            end
        end
    end).
End Execute.

(** ** Connections *)

(** A [Connection] keeps references to the cursors it created; the caller
    holds the same cursor objects.  Cursors therefore live in a store, and a
    reference is a position in it. *)
Record Connection : Type := mkConnection {
  conn_closed : bool;
  cursors : list nat
}.

Record World : Type := mkWorld {
  conn : Connection;
  store : list Cursor
}.

(** [Connection.__init__]. *)
Definition Connection_init : World := mkWorld (mkConnection false []) [].

#[global] Instance Connection_Closable : Closable World :=
  {| closed := fun w => conn_closed (conn w); class_name := "Connection" |}.

Fixpoint store_set (st : list Cursor) (ref : nat) (c : Cursor) : list Cursor :=
  match st, ref with
  | [], _ => []
  | _ :: rest, O => c :: rest
  | x :: rest, S ref' => x :: store_set rest ref' c
  end.

(** A cursor method called on the object behind a reference. *)
Definition on_cursor {A : Type} (ref : nat) (m : Method Cursor A)
  : Method World A :=
  fun w =>
    match nth_error (store w) ref with
    | Some c =>
        let '(out, c') := m c in
        (out, mkWorld (conn w) (store_set (store w) ref c'))
    | None => (raise AttributeError (MsgBuiltin "dangling reference"), w)
    end.

(** [try: body / except exceptions.Error: pass]. *)
Definition try_except_Error {S : Type} (body : Method S unit) : Method S unit :=
  fun s =>
    match body s with
    | (Raise e, s') =>
        if is_exceptions_Error (exc_class e) then (Ok tt, s')
        else (Raise e, s')
    | ok => ok
    end.

(** [for cursor in self.cursors: ...]. *)
Fixpoint close_cursors (refs : list nat) : Method World unit :=
  fun w =>
    match refs with
    | [] => (Ok tt, w)
    | ref :: rest =>
        match try_except_Error (on_cursor ref Cursor_close) w with
        | (Ok _, w') => close_cursors rest w'
        | (Raise e, w') => (Raise e, w')
        end
    end.

Definition Connection_close : Method World unit :=
  check_closed (fun w =>
    let w := mkWorld (mkConnection true (cursors (conn w))) (store w) in
    close_cursors (cursors (conn w)) w).

Definition Connection_commit : Method World unit :=
  check_closed (fun w => (Ok tt, w)).

(** [Connection.cursor]: the connection arguments are taken to be acceptable
    to [Cursor.__init__]. *)
Definition Connection_cursor : Method World nat :=
  check_closed (fun w =>
    let ref := List.length (store w) in
    (Ok ref,
     mkWorld (mkConnection (conn_closed (conn w)) (cursors (conn w) ++ [ref]))
       (store w ++ [Cursor_init]))).

Section ConnectionExecute.
Variable percent_format : string -> dict string Value -> Res string.

Definition Connection_execute (operation : string)
  (parameters : option (dict string Value)) (r : Response)
  : Method World nat :=
  check_closed (fun w =>
    match Connection_cursor w with
    | (Ok ref, w') =>
        match on_cursor ref
                (Cursor_execute percent_format operation parameters r) w'
        with
        | (Ok _, w'') => (Ok ref, w'')
        | (Raise e, w'') => (Raise e, w'')
        end
    | (Raise e, w') => (Raise e, w')
    end).
End ConnectionExecute.

Definition Connection_enter : Method World nat := Connection_cursor.

Definition Connection_exit : Method World unit := Connection_close.

(** ** Definitions used to state the properties *)

(** The reading of "un-escaping" taken from the specification: an asterisk
    stands for itself; any other literal is a body between single quotes in
    which every quote is doubled. *)
Fixpoint unquote_body_spec (s : string) : option string :=
  match s with
  | EmptyString => None
  | String c rest =>
      if Ascii.eqb c quote then
        match rest with
        | EmptyString => Some EmptyString
        | String c' rest' =>
            if Ascii.eqb c' quote
            then option_map (String quote) (unquote_body_spec rest')
            else None
        end
      else option_map (String c) (unquote_body_spec rest)
  end.

Definition unescape_spec (s : string) : option string :=
  if String.eqb s "*" then Some "*"
  else
    match s with
    | String c body => if Ascii.eqb c quote then unquote_body_spec body else None
    | EmptyString => None
    end.

(** The outcome of the replica-count test alone. *)
Definition counts_bad (payload : Payload) : bool :=
  (get_or (numServersQueried payload) (-1)
     >? get_or (numServersResponded payload) (-1))
  || (get_or (numServersResponded payload) (-1) =? -1)
  || (get_or (numServersQueried payload) (-1) =? -1).

(** Rows from which [execute] can build the description and the buffer. *)
Definition materialisable (rows : list Row) : Prop :=
  rows = []
  \/ exists d results,
       get_description_from_rows rows = Ok d
       /\ mapM (make_Row (map fst (hd [] rows))) rows = Ok results.

(** The interpolation used where a concrete run is evaluated: a template
    without placeholders is left as it is. *)
Definition no_placeholders (operation : string) (_ : dict string Value)
  : Res string := Ok operation.

Definition empty_payload (responded queried : Z) : Payload :=
  mkPayload (Some responded) (Some queried) None None None.

(** A response with the given status and decoded body. *)
Definition response (status : Z) (payload : Payload) : Response :=
  mkResponse status EmptyString (Some payload).

(** The metrics of the grouped-row example: a count grouped by city. *)
Definition count_by_city : list Metric :=
  [mkMetric (Some "count") (Some ["city"])
     (Some [mkGroupByEntry ["NYC"] (VInt 5); mkGroupByEntry ["SF"] (VInt 2)])
     None].

(** The cursor behind a reference is closed. *)
Definition closed_at (st : list Cursor) (ref : nat) : bool :=
  match nth_error st ref with
  | Some c => cursor_closed c
  | None => false
  end.

(** Every cursor reference of the connection points into the store. *)
Definition live (w : World) : Prop :=
  Forall (fun ref => (ref < List.length (store w))%nat) (cursors (conn w)).

(** What a fetch operation raises on a closed cursor: [check_result] is the
    outer decorator, so a cursor that never executed reports that first. *)
Definition fetch_after_close (self : Cursor) : Message :=
  match _results self with
  | None => MsgCalledBeforeExecute
  | Some _ => MsgAlreadyClosed "Cursor"
  end.

(** The group key the repair produces from a list with [k] surplus values. *)
Definition repaired_key (k : nat) (group_values : list string) : list string :=
  (join_empty (firstn k group_values) ++ nth k group_values EmptyString)
    :: skipn (S k) group_values.

(** *** Which rows schema inference looks at *)

(** The column [name] has shown a non-null value among [items]. *)
Definition has_value (items : list (string * Value)) (name : string) : bool :=
  existsb (fun item => String.eqb (fst item) name && negb (is_None (snd item)))
    items.

(** Every column seen among [items] has shown a non-null value. *)
Definition all_resolved (items : list (string * Value)) : bool :=
  forallb (has_value items) (map fst items).

(** The rows up to and including the first one after which every column seen
    so far has shown a non-null value ([seen] holds the items of the rows
    before). *)
Fixpoint scanned (seen : list (string * Value)) (rows : list Row) : list Row :=
  match rows with
  | [] => []
  | row :: rest =>
      row :: (if all_resolved (seen ++ row)%list then []
              else scanned (seen ++ row)%list rest)
  end.

Definition scanned_items (rows : list Row) : list (string * Value) :=
  List.concat (scanned [] rows).

(** The number of columns whose type is still [None]. *)
Definition unresolved (types : dict string (option Type_)) : nat :=
  List.length
    (filter (fun entry => match snd entry with None => true | Some _ => false end)
       types).

(** The first statement of the body of the item loop: a column seen for the
    first time is entered with type [None]. *)
Definition register (name : string) (st : ScanState) : ScanState :=
  if negb (dict_mem String.eqb name (fst st))
  then (dict_set String.eqb name None (fst st), snd st + 1)
  else st.

(** What the loop state records about the items processed so far, given as
    the set of column names seen and the non-null values shown per column. *)
Definition ScanInv (seen : string -> Prop) (shown : string -> Value -> Prop)
  (st : ScanState) : Prop :=
  NoDup (map fst (fst st))
  /\ (forall name, dict_get String.eqb name (fst st) <> None <-> seen name)
  /\ (forall name, dict_get String.eqb name (fst st) = Some None ->
                   forall v, ~ shown name v)
  /\ (forall name t, dict_get String.eqb name (fst st) = Some (Some t) ->
                     (exists v, shown name v /\ get_type v = Ok t)
                     /\ forall v, shown name v -> get_type v = Ok t)
  /\ snd st = Z.of_nat (unresolved (fst st))
  /\ (forall name v, shown name v -> seen name).

Definition seen_in (items : list (string * Value)) (name : string) : Prop :=
  In name (map fst items).

Definition shown_in (items : list (string * Value)) (name : string)
  (v : Value) : Prop :=
  In (name, v) items /\ is_None v = false.

(** How inference can fail on [items]: two non-null values of one column with
    different inferred types, or a non-null value of no known type. *)
Definition conflict_in (items : list (string * Value)) (e : Exc) : Prop :=
  (exists name current new v1 v2,
     e = mkExc DatabaseError (MsgDifferingColumnType name current new)
     /\ current <> new
     /\ shown_in items name v1 /\ get_type v1 = Ok current
     /\ shown_in items name v2 /\ get_type v2 = Ok new)
  \/ (exists name v, shown_in items name v /\ get_type v = Raise e).

(** ** Definitions used to state further properties *)

(** The size [fetchmany] works with: [size or self.arraysize]. *)
Definition batch_size (size : option Z) (self : Cursor) : Z :=
  match size with
  | Some n => if n =? 0 then arraysize self else n
  | None => arraysize self
  end.

(** The two messages of the arity checks made on each merged row. *)
Definition arity_message (m : Message) : bool :=
  match m with
  | MsgGroupValsLen _ _ | MsgMetricValsLen _ _ => true
  | _ => false
  end.

(** A merged row has one value per group-by column and one slot per
    metric. *)
Definition well_shaped (gby_cols : list string) (num_metrics : nat)
  (item : list string * list Value) : Prop :=
  List.length (fst item) = List.length gby_cols
  /\ List.length (snd item) = num_metrics.

Definition all_well_shaped (gby_cols : list string) (num_metrics : nat)
  (rows : GbyRows) : Prop :=
  Forall (well_shaped gby_cols num_metrics) rows.

(** The group-by columns a metric declares: [metric.get('groupByColumns', [])]. *)
Definition declared_columns (metric : Metric) : list string :=
  get_or (agg_groupByColumns metric) [].

(** A metric of a global aggregation: a function name and a flat value. *)
Definition flat_metric (pair : string * Value) : Metric :=
  mkMetric (Some (fst pair)) None None (Some (snd pair)).

(** What [escape] makes of one text. *)
Definition escaped_text (s : string) : string :=
  if String.eqb s "*" then "*" else quoted (replace_quote s).

(** *** The extra request headers of [Cursor.__init__] *)

(** [s.split(sep)] for a separator of one character. *)
Fixpoint str_split (sep : ascii) (s : string) : list string :=
  match s with
  | EmptyString => [EmptyString]
  | String c rest =>
      if Ascii.eqb c sep then EmptyString :: str_split sep rest
      else
        match str_split sep rest with
        | piece :: pieces => String c piece :: pieces
        | [] => [String c EmptyString]
        end
  end.

(** The outcome of building the headers: the dictionary, or the [ValueError]
    of the unpacking [k, v = ...] with the number of values it got. *)
Inductive HeadersOutcome : Type :=
| Headers (extra_headers : dict string string)
| ValueError (got : nat).

(** [for header in ...: k, v = header.split('='); extra_headers[k] = v]. *)
Fixpoint add_headers (headers : list string)
  (extra_headers : dict string string) : HeadersOutcome :=
  match headers with
  | [] => Headers extra_headers
  | header :: rest =>
      match str_split "="%char header with
      | [k; v] => add_headers rest (dict_set String.eqb k v extra_headers)
      | pieces => ValueError (List.length pieces)
      end
  end.

(** The part of [Cursor.__init__] that turns [extra_request_headers] into a
    dictionary; the empty string is falsy and gives no header. *)
Definition parse_extra_request_headers (extra_request_headers : string)
  : HeadersOutcome :=
  if String.eqb extra_request_headers EmptyString then Headers []
  else add_headers (str_split ","%char extra_request_headers) [].

(** The number of times a character occurs in a text. *)
Fixpoint count_char (c : ascii) (s : string) : nat :=
  match s with
  | EmptyString => O
  | String c' rest =>
      (if Ascii.eqb c' c then 1 else 0) + count_char c rest
  end.

(** A header written as [key=value]. *)
Definition render_header (pair : string * string) : string :=
  fst pair ++ String "="%char (snd pair).

(** Names and values that hold neither a comma nor an equals sign. *)
Definition plain (s : string) : Prop :=
  count_char ","%char s = O /\ count_char "="%char s = O.

(** *** The order of the described columns *)

(** A name joins the names seen so far unless it is among them. *)
Definition add_name (names : list string) (name : string) : list string :=
  if existsb (String.eqb name) names then names else (names ++ [name])%list.

(** The column names of [items], each once, in the order they first occur. *)
Definition first_seen (items : list (string * Value)) : list string :=
  fold_left add_name (map fst items) [].

(** * Properties *)

(** ** Parameter escaping *)

(** C2: a boolean parameter is an instance of [int], so the test for
    [int]/[float] catches it before the test for [bool] is reached: [escape]
    hands the boolean back unchanged instead of the keyword [TRUE] or
    [FALSE], and the boolean itself is what [apply_parameters] passes to the
    interpolation. *)
Theorem escape_bool_is_not_keyword (b : bool) :
  isinstance (VBool b) [c_int; c_float] = true
  /\ escape (VBool b) = Ok (VBool b)
  /\ forall percent_format operation key,
       apply_parameters percent_format operation [(key, VBool b)]
       = percent_format operation [(key, VBool b)].
Proof.
  split; [reflexivity | split; [reflexivity |]].
  intros percent_format operation key. reflexivity.
Qed.

Lemma unquote_replace_quote (s : string) :
  unquote_body_spec (replace_quote s ++ String quote EmptyString) = Some s.
Proof.
  induction s as [| c s IH]; [reflexivity |].
  simpl replace_quote. destruct (Ascii.eqb c quote) eqn:E.
  - apply Ascii.eqb_eq in E. subst c.
    cbn [String.append unquote_body_spec]. rewrite Ascii.eqb_refl, IH.
    reflexivity.
  - cbn [String.append unquote_body_spec]. rewrite E, IH. reflexivity.
Qed.

Lemma escape_str (s : string) :
  escape (VStr s)
  = Ok (VStr (if String.eqb s "*" then "*" else quoted (replace_quote s))).
Proof.
  unfold escape. simpl eq_star. destruct (String.eqb s "*") eqn:E.
  - apply String.eqb_eq in E. subst s. reflexivity.
  - reflexivity.
Qed.

(** C9: the escaper returns the text [*] as it is and any other text between
    single quotes with every embedded quote doubled and every other character
    kept; un-escaping what it returns gives the text back. *)
Theorem escape_round_trip (s : string) :
  exists t,
    escape (VStr s) = Ok (VStr t)
    /\ t = (if String.eqb s "*" then "*" else quoted (replace_quote s))
    /\ (forall c rest,
          replace_quote (String c rest)
          = (if Ascii.eqb c quote then String quote (String quote EmptyString)
             else String c EmptyString) ++ replace_quote rest)
    /\ unescape_spec t = Some s.
Proof.
  rewrite escape_str. eexists. split; [reflexivity |].
  split; [reflexivity |]. split.
  - intros c rest. simpl. destruct (Ascii.eqb c quote); reflexivity.
  - destruct (String.eqb s "*") eqn:E.
    + apply String.eqb_eq in E. subst s. reflexivity.
    + unfold unescape_spec, quoted.
      replace (String.eqb
                 (String quote (replace_quote s ++ String quote EmptyString))
                 "*")
        with false by reflexivity.
      simpl Ascii.eqb. apply unquote_replace_quote.
Qed.

(** ** The checks on the payload *)

Section ExecuteProperties.
Variable percent_format : string -> dict string Value -> Res string.

(** What [execute] does once the query text is built and the body decoded:
    a failed check leaves the cursor as it was. *)
Lemma execute_check_fails operation (parameters : option (dict string Value))
  r self query payload e :
  cursor_closed self = false ->
  apply_parameters percent_format operation (get_or parameters []) = Ok query ->
  json r = Some payload ->
  check_payload query (status_code r) payload = Raise e ->
  Cursor_execute percent_format operation parameters r self = (Raise e, self).
Proof.
  intros Hopen Hq Hj Hc. unfold Cursor_execute, check_closed.
  simpl closed. rewrite Hopen. unfold response_rows.
  rewrite Hq. simpl. rewrite Hj. simpl. rewrite Hc. reflexivity.
Qed.

Lemma check_payload_counts_bad query status payload :
  counts_bad payload = true ->
  check_payload query status payload
  = raise DatabaseError
      (MsgTimedOut query (get_or (numServersQueried payload) (-1))
         (get_or (numServersResponded payload) (-1))).
Proof.
  unfold counts_bad, check_payload. intros H. rewrite H. reflexivity.
Qed.

Lemma check_payload_status query status payload :
  counts_bad payload = false -> status <> 200 ->
  check_payload query status payload
  = raise ProgrammingError (MsgReturnedError query status payload).
Proof.
  unfold counts_bad, check_payload. intros H Hs. rewrite H.
  apply Z.eqb_neq in Hs. rewrite Hs. reflexivity.
Qed.

Lemma check_payload_ok query payload :
  counts_bad payload = false ->
  get_or (exceptions payload) [] = [] ->
  check_payload query 200 payload = Ok tt.
Proof.
  unfold counts_bad, check_payload. intros H He. rewrite H, He. reflexivity.
Qed.

(** C3 (amended): once the query text is built and the body decoded,
    [execute] raises the timed-out error, carrying the query and both
    counts, whenever [numServersQueried] is absent, -1 or greater than
    [numServersResponded], or [numServersResponded] is absent or -1; this
    holds whatever the status code and the exceptions list are, and when the
    counts pass, a status other than 200 is reported whatever the exceptions
    list is. *)
Theorem execute_replica_counts_first operation
  (parameters : option (dict string Value)) r self query payload :
  cursor_closed self = false ->
  apply_parameters percent_format operation (get_or parameters []) = Ok query ->
  json r = Some payload ->
  let queried := get_or (numServersQueried payload) (-1) in
  let responded := get_or (numServersResponded payload) (-1) in
  ((numServersQueried payload = None \/ queried = -1
    \/ numServersResponded payload = None \/ responded = -1
    \/ queried > responded) ->
   Cursor_execute percent_format operation parameters r self
   = (raise DatabaseError (MsgTimedOut query queried responded), self))
  /\ (queried <> -1 -> responded <> -1 -> queried <= responded ->
      status_code r <> 200 ->
      Cursor_execute percent_format operation parameters r self
      = (raise ProgrammingError
           (MsgReturnedError query (status_code r) payload), self)).
Proof.
  intros Hopen Hq Hj queried responded. split.
  - intros Hbad.
    apply execute_check_fails with (query := query) (payload := payload);
      try assumption.
    apply check_payload_counts_bad. unfold counts_bad.
    fold queried responded.
    assert (Hcases : queried > responded \/ responded = -1 \/ queried = -1).
    { destruct Hbad as [H | [H | [H | [H | H]]]]; auto.
      - right; right. unfold queried. rewrite H. reflexivity.
      - right; left. unfold responded. rewrite H. reflexivity. }
    destruct Hcases as [H | [H | H]].
    + apply Z.gtb_gt in H. rewrite H. reflexivity.
    + apply Z.eqb_eq in H. rewrite H. apply orb_true_iff. left.
      apply orb_true_r.
    + apply Z.eqb_eq in H. rewrite H. apply orb_true_r.
  - intros Hqn Hrn Hle Hs.
    apply execute_check_fails with (query := query) (payload := payload);
      try assumption.
    apply check_payload_status; [| assumption].
    unfold counts_bad. fold queried responded.
    apply Z.eqb_neq in Hqn, Hrn. rewrite Hqn, Hrn.
    destruct (queried >? responded) eqn:E; [| reflexivity].
    apply Z.gtb_gt in E. lia.
Qed.

(** What [execute] does when every check passes. *)
Lemma execute_checks_pass operation (parameters : option (dict string Value))
  r query payload rows :
  apply_parameters percent_format operation (get_or parameters []) = Ok query ->
  json r = Some payload ->
  check_payload query (status_code r) payload = Ok tt ->
  payload_rows payload = Ok rows ->
  response_rows percent_format operation parameters r = Ok rows.
Proof.
  intros Hq Hj Hc Hr. unfold response_rows.
  rewrite Hq. simpl. rewrite Hj. simpl. rewrite Hc. simpl. exact Hr.
Qed.

Lemma execute_rows_ok operation (parameters : option (dict string Value))
  r self rows :
  cursor_closed self = false ->
  response_rows percent_format operation parameters r = Ok rows ->
  materialisable rows ->
  fst (Cursor_execute percent_format operation parameters r self) = Ok tt.
Proof.
  intros Hopen Hr Hm. unfold Cursor_execute, check_closed.
  simpl closed. rewrite Hopen, Hr.
  destruct Hm as [-> | (d & results & Hd & Hres)]; [reflexivity |].
  destruct rows as [| first_row rest]; [reflexivity |].
  rewrite Hd. simpl hd in Hres. rewrite Hres. reflexivity.
Qed.

(** C4: with [numServersQueried] 3 and [numServersResponded] 2, [execute]
    raises the server error carrying the counts 3 and 2; with both counts 2,
    status 200, no exceptions and rows that decode and materialise,
    [execute] succeeds. *)
Theorem execute_partial_response operation
  (parameters : option (dict string Value)) r self query payload :
  cursor_closed self = false ->
  apply_parameters percent_format operation (get_or parameters []) = Ok query ->
  json r = Some payload ->
  (numServersQueried payload = Some 3 ->
   numServersResponded payload = Some 2 ->
   Cursor_execute percent_format operation parameters r self
   = (raise DatabaseError (MsgTimedOut query 3 2), self))
  /\ (numServersQueried payload = Some 2 ->
      numServersResponded payload = Some 2 ->
      status_code r = 200 ->
      get_or (exceptions payload) [] = [] ->
      forall rows, payload_rows payload = Ok rows -> materialisable rows ->
      fst (Cursor_execute percent_format operation parameters r self)
      = Ok tt).
Proof.
  intros Hopen Hq Hj. split.
  - intros H3 H2.
    apply execute_check_fails with (query := query) (payload := payload);
      try assumption.
    rewrite check_payload_counts_bad.
    + rewrite H3, H2. reflexivity.
    + unfold counts_bad. rewrite H3, H2. reflexivity.
  - intros Hqd Hrd Hs He rows Hr Hm.
    apply execute_rows_ok with (rows := rows); try assumption.
    apply execute_checks_pass with (query := query) (payload := payload);
      try assumption.
    rewrite Hs. apply check_payload_ok; [| assumption].
    unfold counts_bad. rewrite Hqd, Hrd. reflexivity.
Qed.

(** C10: when [execute] gets zero rows, it succeeds and leaves the cursor
    with no description and an empty buffer; on that cursor [fetchone]
    returns [None] without raising and [fetchall] returns the empty list. *)
Theorem execute_zero_rows operation (parameters : option (dict string Value))
  r self query payload :
  cursor_closed self = false ->
  apply_parameters percent_format operation (get_or parameters []) = Ok query ->
  json r = Some payload ->
  check_payload query (status_code r) payload = Ok tt ->
  payload_rows payload = Ok [] ->
  exists self',
    Cursor_execute percent_format operation parameters r self = (Ok tt, self')
    /\ description self' = None
    /\ _results self' = Some []
    /\ Cursor_fetchone self' = (Ok None, self')
    /\ Cursor_fetchall self' = (Ok [], self').
Proof.
  intros Hopen Hq Hj Hc Hr.
  pose proof (execute_checks_pass operation parameters r query payload
                [] Hq Hj Hc Hr) as Hrows.
  exists (set_results (Some []) (set_description None self)).
  unfold Cursor_execute, check_closed. simpl closed.
  rewrite Hopen, Hrows.
  repeat split.
  - unfold Cursor_fetchone, check_result, check_closed. simpl.
    rewrite Hopen. reflexivity.
  - unfold Cursor_fetchall, check_result, check_closed, Cursor_list,
      Cursor_iter, check_closed. simpl. rewrite Hopen. simpl.
    unfold Cursor_next, check_closed. simpl. rewrite Hopen.
    unfold Cursor_fetchone, check_result, check_closed. simpl.
    rewrite Hopen. reflexivity.
Qed.
End ExecuteProperties.

(** The response shapes that carry no result entry decode to zero rows. *)
Lemma payload_rows_no_entries (payload : Payload) :
  (aggregationResults payload = None /\ selectionResults payload = None)
  \/ (aggregationResults payload = None
      /\ exists results, selectionResults payload = Some results
                         /\ sel_results results = [])
  \/ aggregationResults payload = Some [] ->
  payload_rows payload = Ok [].
Proof.
  unfold payload_rows.
  intros [[Ha Hs] | [[Ha (results & Hs & Hr)] | Ha]].
  - rewrite Ha, Hs. reflexivity.
  - rewrite Ha, Hs. unfold selection_rows. rewrite Hr. reflexivity.
  - rewrite Ha. reflexivity.
Qed.

Lemma execute_replica_counts_first_witness :
  Cursor_execute no_placeholders "q" None
    (response 500 (empty_payload 2 3)) Cursor_init
  = (raise DatabaseError (MsgTimedOut "q" 3 2), Cursor_init)
  /\ Cursor_execute no_placeholders "q" None
       (response 500 (empty_payload 2 2)) Cursor_init
     = (raise ProgrammingError (MsgReturnedError "q" 500 (empty_payload 2 2)),
        Cursor_init).
Proof.
  split.
  - apply (proj1 (execute_replica_counts_first no_placeholders "q" None
             (response 500 (empty_payload 2 3)) Cursor_init "q"
             (empty_payload 2 3) eq_refl eq_refl eq_refl)).
    right; right; right; right. simpl. lia.
  - apply (proj2 (execute_replica_counts_first no_placeholders "q" None
             (response 500 (empty_payload 2 2)) Cursor_init "q"
             (empty_payload 2 2) eq_refl eq_refl eq_refl));
      simpl; lia.
Defined.

(** C3 (as stated): a body that reports fewer servers queried than responded
    passes the replica-count test, and [execute] succeeds. *)
Lemma execute_queried_less_than_responded :
  numServersQueried (empty_payload 3 2) = Some 2
  /\ numServersResponded (empty_payload 3 2) = Some 3
  /\ Cursor_execute no_placeholders "q" None
       (response 200 (empty_payload 3 2)) Cursor_init
     = (Ok tt, set_results (Some []) Cursor_init).
Proof. repeat split. Qed.

Lemma execute_partial_response_witness :
  Cursor_execute no_placeholders "q" None
    (response 200 (empty_payload 2 3)) Cursor_init
  = (raise DatabaseError (MsgTimedOut "q" 3 2), Cursor_init)
  /\ fst (Cursor_execute no_placeholders "q" None
            (response 200 (empty_payload 2 2)) Cursor_init)
     = Ok tt.
Proof.
  split.
  - apply (proj1 (execute_partial_response no_placeholders "q" None
             (response 200 (empty_payload 2 3)) Cursor_init "q"
             (empty_payload 2 3) eq_refl eq_refl eq_refl));
      reflexivity.
  - apply (proj2 (execute_partial_response no_placeholders "q" None
             (response 200 (empty_payload 2 2)) Cursor_init "q"
             (empty_payload 2 2) eq_refl eq_refl eq_refl)
             eq_refl eq_refl eq_refl eq_refl [] eq_refl).
    left. reflexivity.
Defined.

Lemma execute_zero_rows_witness :
  exists self',
    Cursor_execute no_placeholders "q" None
      (response 200 (empty_payload 1 1)) Cursor_init
    = (Ok tt, self')
    /\ description self' = None
    /\ _results self' = Some []
    /\ Cursor_fetchone self' = (Ok None, self')
    /\ Cursor_fetchall self' = (Ok [], self').
Proof.
  apply (execute_zero_rows no_placeholders "q" None
           (response 200 (empty_payload 1 1)) Cursor_init "q"
           (empty_payload 1 1) eq_refl eq_refl eq_refl eq_refl eq_refl).
Defined.

(** ** Dictionaries and lists *)

Lemma strs_eqb_refl (l : list string) : strs_eqb l l = true.
Proof.
  induction l as [| x l IH]; [reflexivity |].
  unfold strs_eqb in *. simpl. rewrite String.eqb_refl, IH. reflexivity.
Qed.

Section DictFacts.
Context {K V : Type} (eqb : K -> K -> bool).
Hypothesis eqb_refl : forall k, eqb k k = true.

Lemma dict_get_set_same (k : K) (v : V) (d : dict K V) :
  dict_get eqb k (dict_set eqb k v d) = Some v.
Proof.
  induction d as [| [k' v'] d IH]; simpl.
  - rewrite eqb_refl. reflexivity.
  - destruct (eqb k k') eqn:E; simpl; rewrite E; [reflexivity | exact IH].
Qed.

Lemma dict_mem_set_same (k : K) (v : V) (d : dict K V) :
  dict_mem eqb k (dict_set eqb k v d) = true.
Proof. unfold dict_mem. rewrite dict_get_set_same. reflexivity. Qed.

(** Assigning to a key keeps the keys already there in their order; a new
    key goes to the end. *)
Lemma dict_set_keys (k : K) (v : V) (d : dict K V) :
  map fst (dict_set eqb k v d)
  = if dict_mem eqb k d then map fst d else (map fst d ++ [k])%list.
Proof.
  unfold dict_mem. induction d as [| [k' v'] d IH]; simpl; [reflexivity |].
  destruct (eqb k k') eqn:E; simpl; [reflexivity |].
  rewrite IH. destruct (dict_get eqb k d); reflexivity.
Qed.
End DictFacts.

Lemma list_assign_nth {A : Type} (l l' : list A) (i : nat) (v : A) :
  list_assign l i v = Ok l' -> nth_error l' i = Some v.
Proof.
  revert l' i. induction l as [| x l IH]; intros l' i H.
  - destruct i; discriminate H.
  - destruct i as [| i]; simpl in H.
    + injection H as <-. reflexivity.
    + destruct (list_assign l i v) as [rest' | e] eqn:E; simpl in H;
        [| discriminate H].
      injection H as <-. simpl. apply IH. exact E.
Qed.

Lemma skipn_nth_cons {A : Type} (d : A) (l : list A) (k : nat) :
  (k < List.length l)%nat -> skipn k l = nth k l d :: skipn (S k) l.
Proof.
  revert k. induction l as [| x l IH]; intros k Hk; simpl in Hk; [lia |].
  destruct k as [| k]; [reflexivity |].
  simpl. apply IH. lia.
Qed.

(** ** The aggregation normalizer on the grouped-row example *)

(** C7: for the single metric [count] grouped by [city] with the entries
    NYC -> 5 and SF -> 2, the group keys are kept in the order they were
    first seen and normalization yields exactly the two rows
    {city: NYC, count: 5} and {city: SF, count: 2}, in that order. *)
Theorem count_by_city_rows :
  merge_metrics count_by_city ["city"] 1
  = Ok [(["NYC"], [VInt 5]); (["SF"], [VInt 2])]
  /\ aggregation_rows count_by_city
     = Ok [[("city", VStr "NYC"); ("count", VInt 5)];
           [("city", VStr "SF"); ("count", VInt 2)]]
  /\ forall responded queried excs sel,
       payload_rows
         (mkPayload responded queried excs (Some count_by_city) sel)
       = Ok [[("city", VStr "NYC"); ("count", VInt 5)];
             [("city", VStr "SF"); ("count", VInt 2)]].
Proof.
  split; [reflexivity | split; [reflexivity |]].
  intros responded queried excs sel. reflexivity.
Qed.

(** ** Loops that raise *)

Lemma foldM_app {A S : Type} (f : S -> A -> Res S) (l1 l2 : list A) (s : S) :
  foldM f (l1 ++ l2)%list s = (s' <- foldM f l1 s ;; foldM f l2 s').
Proof.
  revert s. induction l1 as [| x l1 IH]; intros s; simpl; [reflexivity |].
  destruct (f s x) as [s1 | e]; simpl; [apply IH | reflexivity].
Qed.

Lemma foldM_cons {A S : Type} (f : S -> A -> Res S) (x : A) (l : list A)
  (s : S) :
  foldM f (x :: l) s = (s' <- f s x ;; foldM f l s').
Proof. reflexivity. Qed.

(** A loop raises as soon as its list holds an element on which the body
    raises from every state. *)
Lemma foldM_raises {A S : Type} (f : S -> A -> Res S) (l : list A) :
  (exists x, In x l /\ forall s, exists e, f s x = Raise e) ->
  forall s, exists e, foldM f l s = Raise e.
Proof.
  induction l as [| y l IH]; intros (x & Hin & Hx) s.
  - destruct Hin.
  - simpl. destruct (f s y) as [s1 | e] eqn:E; simpl.
    + destruct Hin as [-> | Hin].
      * destruct (Hx s) as [e He]. congruence.
      * apply IH. exists x. split; assumption.
    + exists e. reflexivity.
Qed.

Lemma enumerate_snd {A : Type} (l : list A) : map snd (enumerate l) = l.
Proof.
  unfold enumerate. generalize 0%nat.
  induction l as [| x l IH]; intros a; simpl; [reflexivity |].
  rewrite IH. reflexivity.
Qed.

Lemma in_enumerate {A : Type} (l : list A) (x : A) :
  In x l -> exists i, In (i, x) (enumerate l).
Proof.
  intros H. rewrite <- (enumerate_snd l) in H.
  apply in_map_iff in H as ([i y] & Hy & Hin). simpl in Hy. subst y.
  exists i. exact Hin.
Qed.

(** ** Group-value arity *)

Lemma group_key_exact gby_cols agg_result group_values :
  List.length group_values = List.length gby_cols ->
  group_key gby_cols agg_result group_values = Ok group_values.
Proof.
  intros H. unfold group_key. rewrite H.
  rewrite Nat.ltb_irrefl. reflexivity.
Qed.

Lemma group_key_longer gby_cols agg_result group_values :
  gby_cols <> [] ->
  (List.length gby_cols < List.length group_values)%nat ->
  group_key gby_cols agg_result group_values
  = Ok (repaired_key (List.length group_values - List.length gby_cols)
          group_values)
  /\ List.length
       (repaired_key (List.length group_values - List.length gby_cols)
          group_values)
     = List.length gby_cols.
Proof.
  intros Hne Hlt. unfold group_key.
  assert (Hge : (List.length group_values <? List.length gby_cols)%nat = false)
    by (apply Nat.ltb_ge; lia).
  rewrite Hge. apply Nat.ltb_lt in Hlt as Hlt'. rewrite Hlt'.
  set (k := (List.length group_values - List.length gby_cols)%nat).
  assert (Hk : (k < List.length group_values)%nat).
  { destruct gby_cols; [contradiction Hne; reflexivity |]. simpl in *. lia. }
  unfold repaired_key.
  assert (Hskip : skipn k group_values
                  = nth k group_values EmptyString :: skipn (S k) group_values).
  { apply skipn_nth_cons. exact Hk. }
  rewrite Hskip. split; [reflexivity |].
  cbn [List.length]. rewrite length_skipn. unfold k. lia.
Qed.

(** A metric holding an entry with too few group values is rejected whatever
    has been merged so far. *)
Lemma add_metric_short_group aggregation_results gby_cols num_metrics gby_rows
  i agg_result entries entry :
  agg_groupByResult agg_result = Some entries ->
  In entry entries ->
  (List.length (gb_group entry) < List.length gby_cols)%nat ->
  exists e,
    add_metric aggregation_results gby_cols num_metrics gby_rows (i, agg_result)
    = Raise e.
Proof.
  intros Hg Hin Hlt. unfold add_metric. rewrite Hg.
  destruct (dict_mem strs_eqb total_group_vals_key gby_rows);
    [eexists; reflexivity |].
  apply foldM_raises. exists entry. split; [exact Hin |].
  intros rows. unfold add_group_result, group_key.
  apply Nat.ltb_lt in Hlt. rewrite Hlt. eexists. reflexivity.
Qed.

(** C6 (amended): a group-value list shorter than the declared group-by
    columns makes the entry fail with the insufficient-values error, and a
    response holding such an entry is rejected; when at least one group-by
    column is declared and the list has [k] values too many, the [k] leading
    values are concatenated onto the front of the first retained value, the
    list is cut to the declared arity, and the entry is stored under that
    key, its value in the metric's slot. *)
Theorem group_values_arity gby_cols num_metrics i agg_result gby_rows
  group_values value :
  ((List.length group_values < List.length gby_cols)%nat ->
   group_key gby_cols agg_result group_values
   = raise DatabaseError
       (MsgExpectedToContain agg_result (List.length gby_cols)
          (List.length group_values))
   /\ add_group_result gby_cols num_metrics i agg_result gby_rows
        (mkGroupByEntry group_values value)
      = raise DatabaseError
          (MsgExpectedToContain agg_result (List.length gby_cols)
             (List.length group_values))
   /\ forall aggregation_results entries,
        get_group_by_column_names aggregation_results = Ok gby_cols ->
        In agg_result aggregation_results ->
        agg_groupByResult agg_result = Some entries ->
        In (mkGroupByEntry group_values value) entries ->
        exists e, aggregation_rows aggregation_results = Raise e)
  /\ (gby_cols <> [] ->
      (List.length gby_cols < List.length group_values)%nat ->
      let k := (List.length group_values - List.length gby_cols)%nat in
      group_key gby_cols agg_result group_values
      = Ok (repaired_key k group_values)
      /\ List.length (repaired_key k group_values) = List.length gby_cols
      /\ add_group_result gby_cols num_metrics i agg_result gby_rows
           (mkGroupByEntry group_values value)
         = add_group_result gby_cols num_metrics i agg_result gby_rows
             (mkGroupByEntry (repaired_key k group_values) value)
      /\ forall gby_rows',
           add_group_result gby_cols num_metrics i agg_result gby_rows
             (mkGroupByEntry group_values value) = Ok gby_rows' ->
           exists slots,
             dict_get strs_eqb (repaired_key k group_values) gby_rows'
             = Some slots
             /\ nth_error slots i = Some value).
Proof.
  split.
  - intros Hlt.
    assert (Hk : group_key gby_cols agg_result group_values
                 = raise DatabaseError
                     (MsgExpectedToContain agg_result (List.length gby_cols)
                        (List.length group_values))).
    { unfold group_key. apply Nat.ltb_lt in Hlt. rewrite Hlt. reflexivity. }
    split; [exact Hk | split].
    + unfold add_group_result. simpl gb_group. rewrite Hk. reflexivity.
    + intros aggregation_results entries Hcols Hin Hg Hentry.
      unfold aggregation_rows. rewrite Hcols. cbn [bind].
      destruct (mapM metric_function aggregation_results)
        as [metric_names | e]; cbn [bind]; [| exists e; reflexivity].
      assert (Hmerge : exists e,
                merge_metrics aggregation_results gby_cols
                  (List.length metric_names) = Raise e).
      { unfold merge_metrics. apply foldM_raises.
        destruct (in_enumerate _ _ Hin) as [j Hj].
        exists (j, agg_result). split; [exact Hj |].
        intros rows.
        apply add_metric_short_group
          with (entries := entries) (entry := mkGroupByEntry group_values value);
          assumption. }
      destruct Hmerge as [e ->]. exists e. reflexivity.
  - intros Hne Hlt k.
    destruct (group_key_longer gby_cols agg_result group_values Hne Hlt)
      as [Hkey Hlen].
    fold k in Hkey, Hlen.
    split; [exact Hkey | split; [exact Hlen | split]].
    + unfold add_group_result. simpl gb_group. simpl gb_value.
      rewrite Hkey, (group_key_exact _ _ _ Hlen). reflexivity.
    + intros gby_rows' H. unfold add_group_result in H.
      simpl gb_group in H. simpl gb_value in H. rewrite Hkey in H.
      simpl in H.
      match type of H with
      | context [dict_item strs_eqb _ ?d] => set (rows1 := d) in H
      end.
      destruct (dict_item strs_eqb (repaired_key k group_values) rows1)
        as [slots | e]; simpl in H; [| discriminate H].
      destruct (list_assign slots i value) as [slots' | e] eqn:E;
        simpl in H; [| discriminate H].
      injection H as <-. exists slots'. split.
      * apply dict_get_set_same. exact strs_eqb_refl.
      * apply list_assign_nth with (l := slots). exact E.
Qed.

(** C6 (as stated): with no group-by column declared, a group-value list
    with a surplus value is not repaired: reading the first retained value
    raises [IndexError]. *)
Lemma group_key_no_columns_surplus :
  group_key [] (mkMetric (Some "count") None
                  (Some [mkGroupByEntry ["a"] (VInt 1)]) None) ["a"]
  = raise IndexError (MsgBuiltin "list index out of range")
  /\ aggregation_rows
       [mkMetric (Some "count") None
          (Some [mkGroupByEntry ["a"] (VInt 1)]) None]
     = raise IndexError (MsgBuiltin "list index out of range").
Proof. split; reflexivity. Qed.

Lemma group_values_arity_witness :
  group_key ["city"; "year"] (mkMetric (Some "count") None None None) ["NYC"]
  = raise DatabaseError
      (MsgExpectedToContain (mkMetric (Some "count") None None None) 2 1)
  /\ group_key ["city"] (mkMetric (Some "count") None None None)
       ["New"; " York"; " City"]
     = Ok ["New York City"].
Proof.
  split.
  - apply (proj1 (group_values_arity ["city"; "year"] 1 0
                    (mkMetric (Some "count") None None None) []
                    ["NYC"] (VInt 1))).
    simpl. lia.
  - apply (proj2 (group_values_arity ["city"] 1 0
                    (mkMetric (Some "count") None None None) []
                    ["New"; " York"; " City"] (VInt 1))).
    + discriminate.
    + simpl. lia.
Defined.

(** ** The closed-resource guard *)

Lemma check_closed_Cursor_closed {A : Type} (f : Method Cursor A) self :
  cursor_closed self = true ->
  check_closed f self = (raise Error (MsgAlreadyClosed "Cursor"), self).
Proof. intros H. unfold check_closed. simpl closed. rewrite H. reflexivity. Qed.

Lemma check_closed_Connection_closed {A : Type} (f : Method World A) w :
  conn_closed (conn w) = true ->
  check_closed f w = (raise Error (MsgAlreadyClosed "Connection"), w).
Proof. intros H. unfold check_closed. simpl closed. rewrite H. reflexivity. Qed.

Lemma check_result_closed {A : Type} (f : Method Cursor A) self :
  cursor_closed self = true ->
  check_result (check_closed f) self
  = (raise Error (fetch_after_close self), self).
Proof.
  intros H. unfold check_result, fetch_after_close.
  destruct (_results self); [| reflexivity].
  apply check_closed_Cursor_closed. exact H.
Qed.

Lemma Cursor_close_inv self self' :
  Cursor_close self = (Ok tt, self') ->
  cursor_closed self = false /\ self' = set_closed self.
Proof.
  unfold Cursor_close, check_closed. simpl closed.
  destruct (cursor_closed self); intros H; [discriminate H |].
  injection H as <-. split; reflexivity.
Qed.

Lemma set_closed_closed self :
  cursor_closed self = true -> set_closed self = self.
Proof. destruct self; simpl; intros ->; reflexivity. Qed.

(** Closing through [try/except]: the cursor behind the reference ends up
    closed and nothing is raised, whether or not it was closed before. *)
Lemma try_close_cursor ref w c :
  nth_error (store w) ref = Some c ->
  try_except_Error (on_cursor ref Cursor_close) w
  = (Ok tt, mkWorld (conn w) (store_set (store w) ref (set_closed c))).
Proof.
  intros H. unfold try_except_Error, on_cursor. rewrite H.
  unfold Cursor_close, check_closed. simpl closed.
  destruct (cursor_closed c) eqn:E; simpl.
  - rewrite (set_closed_closed c E). reflexivity.
  - reflexivity.
Qed.

Lemma try_close_dangling ref w :
  nth_error (store w) ref = None ->
  try_except_Error (on_cursor ref Cursor_close) w
  = (raise AttributeError (MsgBuiltin "dangling reference"), w).
Proof.
  intros H. unfold try_except_Error, on_cursor. rewrite H. reflexivity.
Qed.

Lemma store_set_length st ref c :
  List.length (store_set st ref c) = List.length st.
Proof.
  revert ref. induction st as [| x st IH]; intros ref; [reflexivity |].
  destruct ref; simpl; [reflexivity | rewrite IH; reflexivity].
Qed.

Lemma closed_at_store_set st ref c r :
  (ref < List.length st)%nat ->
  closed_at (store_set st ref (set_closed c)) r
  = if Nat.eqb r ref then true else closed_at st r.
Proof.
  unfold closed_at. revert ref r.
  induction st as [| x st IH]; intros ref r Hlt; simpl in Hlt; [lia |].
  destruct ref as [| ref]; destruct r as [| r]; simpl; try reflexivity.
  apply IH. lia.
Qed.

(** The loop over the connection's cursors: with every reference pointing
    into the store it never raises, it closes every listed cursor, and it
    leaves the connection record and the other cursors' closed flag alone. *)
Lemma close_cursors_ok refs : forall w,
  Forall (fun ref => (ref < List.length (store w))%nat) refs ->
  exists st',
    close_cursors refs w = (Ok tt, mkWorld (conn w) st')
    /\ List.length st' = List.length (store w)
    /\ forall r, closed_at st' r
                 = (existsb (Nat.eqb r) refs || closed_at (store w) r).
Proof.
  induction refs as [| ref refs IH]; intros w Hall.
  - exists (store w). destruct w. repeat split.
  - inversion Hall as [| ? ? Href Hrest]; subst.
    destruct (nth_error (store w) ref) as [c |] eqn:Hc.
    2: { apply nth_error_None in Hc. lia. }
    simpl close_cursors. rewrite (try_close_cursor ref w c Hc).
    set (w1 := mkWorld (conn w) (store_set (store w) ref (set_closed c))).
    destruct (IH w1) as (st' & Hrun & Hlen & Hclosed).
    { simpl. rewrite store_set_length. exact Hrest. }
    exists st'. split; [exact Hrun | split].
    + rewrite Hlen. simpl. apply store_set_length.
    + intros r. rewrite Hclosed. simpl store.
      rewrite (closed_at_store_set _ _ _ _ Href). simpl existsb.
      destruct (Nat.eqb r ref), (existsb (Nat.eqb r) refs); reflexivity.
Qed.

Lemma close_cursors_inv refs : forall w w',
  close_cursors refs w = (Ok tt, w') ->
  Forall (fun ref => (ref < List.length (store w))%nat) refs.
Proof.
  induction refs as [| ref refs IH]; intros w w' H; [constructor |].
  simpl close_cursors in H.
  destruct (nth_error (store w) ref) as [c |] eqn:Hc.
  - rewrite (try_close_cursor ref w c Hc) in H.
    assert (Href : (ref < List.length (store w))%nat)
      by (apply nth_error_Some; rewrite Hc; discriminate).
    constructor; [exact Href |].
    apply IH in H. simpl in H. rewrite store_set_length in H. exact H.
  - rewrite (try_close_dangling ref w Hc) in H. discriminate H.
Qed.

(** References handed out by [Connection.cursor] stay live. *)
Lemma live_init : live Connection_init.
Proof. constructor. Qed.

Lemma live_cursor w ref w' :
  live w -> Connection_cursor w = (Ok ref, w') ->
  live w' /\ (ref < List.length (store w'))%nat.
Proof.
  unfold live, Connection_cursor, check_closed. simpl closed.
  intros Hlive. destruct (conn_closed (conn w)); [discriminate |].
  intros H. injection H as <- <-. simpl. rewrite length_app. simpl.
  split; [| lia].
  apply Forall_app. split.
  - revert Hlive. apply Forall_impl. intros r Hr. lia.
  - constructor; [lia | constructor].
Qed.

Lemma live_on_cursor {A : Type} ref (m : Method Cursor A) w :
  live w -> live (snd (on_cursor ref m w)).
Proof.
  unfold live, on_cursor. intros Hlive.
  destruct (nth_error (store w) ref) as [c |]; [| exact Hlive].
  destruct (m c) as [out c']. simpl. rewrite store_set_length. exact Hlive.
Qed.

(** C8 (amended): after a successful [close] every guarded operation of a
    cursor, a second [close] included, raises the usage error and leaves the
    cursor as it is: "Cursor already closed", except that the fetch
    operations of a cursor that never executed raise "Called before
    `execute`"; after a successful [close] every operation of a connection,
    a second [close] included, raises "Connection already closed"; and
    closing an open connection whose cursor references are live succeeds and
    leaves every one of its cursors closed, whether or not some were closed
    before. *)
Theorem closed_resource_guard :
  (forall self self',
     Cursor_close self = (Ok tt, self') ->
     cursor_closed self' = true
     /\ Cursor_close self' = (raise Error (MsgAlreadyClosed "Cursor"), self')
     /\ (forall percent_format operation parameters r,
           Cursor_execute percent_format operation parameters r self'
           = (raise Error (MsgAlreadyClosed "Cursor"), self'))
     /\ Cursor_executemany self'
        = (raise Error (MsgAlreadyClosed "Cursor"), self')
     /\ Cursor_setinputsizes self'
        = (raise Error (MsgAlreadyClosed "Cursor"), self')
     /\ Cursor_setoutputsizes self'
        = (raise Error (MsgAlreadyClosed "Cursor"), self')
     /\ Cursor_iter self' = (raise Error (MsgAlreadyClosed "Cursor"), self')
     /\ Cursor_next self' = (raise Error (MsgAlreadyClosed "Cursor"), self')
     /\ Cursor_fetchone self' = (raise Error (fetch_after_close self'), self')
     /\ (forall size,
           Cursor_fetchmany size self'
           = (raise Error (fetch_after_close self'), self'))
     /\ Cursor_fetchall self' = (raise Error (fetch_after_close self'), self'))
  /\ (forall w w',
        Connection_close w = (Ok tt, w') ->
        conn_closed (conn w') = true
        /\ (forall r, In r (cursors (conn w')) -> closed_at (store w') r = true)
        /\ Connection_close w'
           = (raise Error (MsgAlreadyClosed "Connection"), w')
        /\ Connection_commit w'
           = (raise Error (MsgAlreadyClosed "Connection"), w')
        /\ Connection_cursor w'
           = (raise Error (MsgAlreadyClosed "Connection"), w')
        /\ (forall percent_format operation parameters r,
              Connection_execute percent_format operation parameters r w'
              = (raise Error (MsgAlreadyClosed "Connection"), w'))
        /\ Connection_enter w'
           = (raise Error (MsgAlreadyClosed "Connection"), w')
        /\ Connection_exit w'
           = (raise Error (MsgAlreadyClosed "Connection"), w'))
  /\ (forall w,
        conn_closed (conn w) = false ->
        live w ->
        fst (Connection_close w) = Ok tt).
Proof.
  split; [| split].
  - intros self self' H. apply Cursor_close_inv in H as [_ ->].
    assert (Hc : cursor_closed (set_closed self) = true) by reflexivity.
    split; [exact Hc |].
    repeat split; intros;
      first [ apply check_result_closed; exact Hc
            | apply check_closed_Cursor_closed; exact Hc ].
  - intros w w' H.
    unfold Connection_close, check_closed in H. simpl closed in H.
    destruct (conn_closed (conn w)) eqn:Hopen; [discriminate H |].
    set (w1 := mkWorld (mkConnection true (cursors (conn w))) (store w)) in H.
    change (cursors (conn w)) with (cursors (conn w1)) in H.
    pose proof (close_cursors_inv _ _ _ H) as Hall.
    destruct (close_cursors_ok _ w1 Hall) as (st' & Hrun & _ & Hclosed).
    rewrite Hrun in H. injection H as <-.
    assert (Hc : conn_closed (conn (mkWorld (conn w1) st')) = true)
      by reflexivity.
    split; [exact Hc | split].
    + intros r Hin. simpl store. rewrite Hclosed.
      apply orb_true_iff. left. apply existsb_exists.
      exists r. split; [exact Hin | apply Nat.eqb_refl].
    + repeat split; intros; apply check_closed_Connection_closed; exact Hc.
  - intros w Hopen Hall.
    unfold Connection_close, check_closed. simpl closed. rewrite Hopen.
    set (w1 := mkWorld (mkConnection true (cursors (conn w))) (store w)).
    destruct (close_cursors_ok (cursors (conn w1)) w1 Hall)
      as (st' & Hrun & _).
    cbv zeta. fold w1. rewrite Hrun. reflexivity.
Qed.

(** C8 (as stated): [close] on a cursor that is already closed raises. *)
Lemma Cursor_close_twice_raises :
  Cursor_close Cursor_init = (Ok tt, set_closed Cursor_init)
  /\ Cursor_close (set_closed Cursor_init)
     = (raise Error (MsgAlreadyClosed "Cursor"), set_closed Cursor_init).
Proof. split; reflexivity. Qed.

Lemma closed_resource_guard_witness :
  Cursor_fetchone (set_closed Cursor_init)
  = (raise Error MsgCalledBeforeExecute, set_closed Cursor_init)
  /\ fst (Connection_close
            (mkWorld (mkConnection false [0%nat; 1%nat])
               [Cursor_init; set_closed Cursor_init]))
     = Ok tt.
Proof.
  split.
  - apply (proj1 closed_resource_guard Cursor_init (set_closed Cursor_init)
             eq_refl).
  - apply (proj2 (proj2 closed_resource_guard)
             (mkWorld (mkConnection false [0%nat; 1%nat])
                [Cursor_init; set_closed Cursor_init]) eq_refl).
    repeat constructor.
Defined.

(** ** Total and grouped results in one response *)

(** The group-by columns found are not empty when a metric declares some. *)
Lemma group_by_loop_nonempty aggregation_results : forall acc gby_cols,
  group_by_loop acc aggregation_results = Ok gby_cols ->
  acc <> []
  \/ (exists m, In m aggregation_results
                /\ get_or (agg_groupByColumns m) [] <> []) ->
  gby_cols <> [].
Proof.
  induction aggregation_results as [| metric rest IH]; intros acc gby_cols H Hne.
  - simpl in H. injection H as <-.
    destruct Hne as [Hne | (m & [] & _)]. exact Hne.
  - simpl in H.
    destruct (negb (is_empty acc)
              && negb (strs_eqb acc (get_or (agg_groupByColumns metric) [])));
      [discriminate H |].
    destruct (is_empty acc) eqn:Eacc.
    + apply (IH _ _ H).
      destruct (get_or (agg_groupByColumns metric) []) as [| c cs] eqn:Em.
      * right. destruct Hne as [Hne | (m & [<- | Hin] & Hm)].
        -- destruct acc; [contradiction Hne; reflexivity | discriminate Eacc].
        -- contradiction Hm.
        -- exists m. split; assumption.
      * left. discriminate.
    + apply (IH _ _ H). left. destruct acc; [discriminate Eacc | discriminate].
Qed.

(** With a group-by column declared, a metric without a per-group breakdown
    is rejected whatever has been merged so far. *)
Lemma add_metric_total_with_columns aggregation_results gby_cols num_metrics
  gby_rows i agg_result :
  gby_cols <> [] ->
  agg_groupByResult agg_result = None ->
  exists e,
    add_metric aggregation_results gby_cols num_metrics gby_rows (i, agg_result)
    = Raise e.
Proof.
  intros Hne Hg. unfold add_metric. rewrite Hg.
  match goal with
  | |- context [negb (List.length ?d =? 1)%nat] =>
      destruct (negb (List.length d =? 1)%nat)
  end.
  - eexists. reflexivity.
  - destruct gby_cols; [contradiction Hne; reflexivity |].
    eexists. reflexivity.
Qed.

(** Once merged, the total row stays in [gby_rows]. *)
Lemma add_metric_total_key aggregation_results gby_cols num_metrics gby_rows
  i agg_result gby_rows' :
  agg_groupByResult agg_result = None ->
  add_metric aggregation_results gby_cols num_metrics gby_rows (i, agg_result)
  = Ok gby_rows' ->
  dict_mem strs_eqb total_group_vals_key gby_rows' = true.
Proof.
  intros Hg. unfold add_metric. rewrite Hg.
  match goal with
  | |- context [negb (List.length ?d =? 1)%nat] => set (rows1 := d)
  end.
  destruct (negb (List.length rows1 =? 1)%nat); [discriminate |].
  destruct (0 <? List.length gby_cols)%nat; [discriminate |].
  destruct (agg_value agg_result) as [v |]; simpl; [| discriminate].
  destruct (dict_item strs_eqb total_group_vals_key rows1) as [slots | e];
    simpl; [| discriminate].
  destruct (list_assign slots i v) as [slots' | e]; simpl; [| discriminate].
  intros H. injection H as <-.
  apply dict_mem_set_same. exact strs_eqb_refl.
Qed.

Lemma add_metric_grouped_after_total aggregation_results gby_cols num_metrics
  gby_rows i agg_result :
  dict_mem strs_eqb total_group_vals_key gby_rows = true ->
  agg_groupByResult agg_result <> None ->
  add_metric aggregation_results gby_cols num_metrics gby_rows (i, agg_result)
  = raise DatabaseError (MsgTotalAndGroupBy aggregation_results).
Proof.
  intros Hmem Hg. unfold add_metric.
  destruct (agg_groupByResult agg_result); [| contradiction Hg; reflexivity].
  rewrite Hmem. reflexivity.
Qed.

(** With the total row merged, a later metric with a per-group breakdown is
    rejected. *)
Lemma merge_raises_after_total aggregation_results gby_cols num_metrics
  (indexed : list (nat * Metric)) : forall gby_rows,
  dict_mem strs_eqb total_group_vals_key gby_rows = true ->
  (exists x, In x indexed /\ agg_groupByResult (snd x) <> None) ->
  exists e,
    foldM (add_metric aggregation_results gby_cols num_metrics) indexed gby_rows
    = Raise e.
Proof.
  induction indexed as [| [i m] indexed IH]; intros gby_rows Hmem (x & Hin & Hx).
  - destruct Hin.
  - rewrite foldM_cons.
    destruct (agg_groupByResult m) as [entries |] eqn:Hm.
    + rewrite add_metric_grouped_after_total;
        [eexists; reflexivity | exact Hmem | rewrite Hm; discriminate].
    + destruct (add_metric aggregation_results gby_cols num_metrics gby_rows
                  (i, m)) as [rows' | e] eqn:E; cbn [bind].
      * apply IH.
        -- apply (add_metric_total_key _ _ _ _ _ _ _ Hm E).
        -- destruct Hin as [<- | Hin].
           ++ simpl in Hx. contradiction Hx.
           ++ exists x. split; assumption.
      * exists e. reflexivity.
Qed.

(** C5 (amended): an aggregation response that holds both a metric without a
    per-group breakdown and a metric with one is rejected whenever some
    metric declares at least one group-by column, or the metric without a
    breakdown comes before one with a breakdown. *)
Theorem total_and_grouped_rejected (aggregation_results : list Metric) :
  (exists m, In m aggregation_results /\ agg_groupByResult m = None) ->
  (exists m, In m aggregation_results /\ agg_groupByResult m <> None) ->
  (exists m, In m aggregation_results
             /\ get_or (agg_groupByColumns m) [] <> [])
  \/ (exists before total between grouped after,
        aggregation_results
        = (before ++ total :: between ++ grouped :: after)%list
        /\ agg_groupByResult total = None
        /\ agg_groupByResult grouped <> None) ->
  exists e, aggregation_rows aggregation_results = Raise e.
Proof.
  intros (total & Htin & Htotal) _ Hcase.
  unfold aggregation_rows, get_group_by_column_names.
  destruct (group_by_loop [] aggregation_results) as [gby_cols | e] eqn:Hcols;
    simpl; [| exists e; reflexivity].
  destruct (mapM metric_function aggregation_results) as [metric_names | e];
    simpl; [| exists e; reflexivity].
  assert (Hmerge : exists e,
            merge_metrics aggregation_results gby_cols
              (List.length metric_names) = Raise e).
  { unfold merge_metrics. destruct Hcase as [Hdecl | Horder].
    - apply foldM_raises.
      destruct (in_enumerate _ _ Htin) as [i Hi].
      exists (i, total). split; [exact Hi |].
      intros gby_rows. apply add_metric_total_with_columns; [| exact Htotal].
      apply (group_by_loop_nonempty _ _ _ Hcols). right. exact Hdecl.
    - destruct Horder
        as (before & t & between & g & after & Heq & Ht & Hg).
      pose proof (enumerate_snd aggregation_results) as Hsnd.
      rewrite Heq in Hsnd at 2.
      apply map_eq_app in Hsnd as (p1 & p2 & Hp & _ & Hp2).
      apply map_eq_cons in Hp2 as ([i t'] & p3 & -> & Ht' & Hp3).
      simpl in Ht'. subst t'.
      rewrite Hp, foldM_app.
      destruct (foldM (add_metric aggregation_results gby_cols
                         (List.length metric_names)) p1 [])
        as [rows1 | e]; cbn [bind]; [| exists e; reflexivity].
      rewrite foldM_cons.
      destruct (add_metric aggregation_results gby_cols
                  (List.length metric_names) rows1 (i, t))
        as [rows2 | e] eqn:E; cbn [bind]; [| exists e; reflexivity].
      apply merge_raises_after_total.
      + apply (add_metric_total_key _ _ _ _ _ _ _ Ht E).
      + assert (Hin : In g (map snd p3)).
        { rewrite Hp3. apply in_or_app. right. left. reflexivity. }
        apply in_map_iff in Hin as (x & Hx & Hin).
        exists x. split; [exact Hin | rewrite Hx; exact Hg]. }
  destruct Hmerge as [e ->]. exists e. reflexivity.
Qed.

(** C5 (as stated): with no group-by column declared, a metric whose
    per-group breakdown has an empty group list, or no entry at all, is
    merged with a later flat metric into one row. *)
Lemma grouped_then_total_is_merged :
  aggregation_rows
    [mkMetric (Some "count") None (Some [mkGroupByEntry [] (VInt 5)]) None;
     mkMetric (Some "sum") None None (Some (VInt 7))]
  = Ok [[("count", VInt 5); ("sum", VInt 7)]]
  /\ aggregation_rows
       [mkMetric (Some "count") None (Some []) None;
        mkMetric (Some "sum") None None (Some (VInt 7))]
     = Ok [[("count", VNone); ("sum", VInt 7)]].
Proof. split; reflexivity. Qed.

Lemma total_and_grouped_rejected_witness :
  (exists e,
     aggregation_rows
       [mkMetric (Some "count") (Some ["city"])
          (Some [mkGroupByEntry ["NYC"] (VInt 5)]) None;
        mkMetric (Some "sum") (Some ["city"]) None (Some (VInt 7))]
     = Raise e)
  /\ (exists e,
        aggregation_rows
          [mkMetric (Some "sum") None None (Some (VInt 7));
           mkMetric (Some "count") None
             (Some [mkGroupByEntry [] (VInt 5)]) None]
        = Raise e).
Proof.
  split.
  - apply total_and_grouped_rejected.
    + eexists. split; [right; left; reflexivity | reflexivity].
    + eexists. split; [left; reflexivity | discriminate].
    + left. eexists. split; [left; reflexivity | discriminate].
  - apply total_and_grouped_rejected.
    + eexists. split; [left; reflexivity | reflexivity].
    + eexists. split; [right; left; reflexivity | discriminate].
    + right. exists [], (mkMetric (Some "sum") None None (Some (VInt 7))), [],
        (mkMetric (Some "count") None
           (Some [mkGroupByEntry [] (VInt 5)]) None), [].
      split; [reflexivity | split; [reflexivity | discriminate]].
Defined.

(** ** Schema inference *)

Section DictLookup.
Context {K V : Type} (eqb : K -> K -> bool).
Hypothesis eqb_eq : forall a b, eqb a b = true <-> a = b.

Lemma dict_get_set (k k0 : K) (v0 : V) (d : dict K V) :
  dict_get eqb k (dict_set eqb k0 v0 d)
  = if eqb k k0 then Some v0 else dict_get eqb k d.
Proof.
  induction d as [| [k' v'] d IH]; simpl; [reflexivity |].
  destruct (eqb k0 k') eqn:E0; simpl.
  - apply eqb_eq in E0. subst k'. destruct (eqb k k0); reflexivity.
  - rewrite IH. destruct (eqb k k') eqn:E1, (eqb k k0) eqn:E2; try reflexivity.
    apply eqb_eq in E1, E2. subst.
    assert (H : eqb k' k' = true) by (apply eqb_eq; reflexivity).
    congruence.
Qed.

Lemma dict_get_In (k : K) (v : V) (d : dict K V) :
  dict_get eqb k d = Some v -> In (k, v) d.
Proof.
  induction d as [| [k' v'] d IH]; simpl; [discriminate |].
  destruct (eqb k k') eqn:E.
  - apply eqb_eq in E. subst k'. intros H. injection H as ->. left. reflexivity.
  - intros H. right. apply IH. exact H.
Qed.

Lemma dict_get_None (k : K) (d : dict K V) :
  dict_get eqb k d = None <-> ~ In k (map fst d).
Proof.
  induction d as [| [k' v'] d IH]; simpl.
  - split; [intros _ [] | reflexivity].
  - destruct (eqb k k') eqn:E.
    + apply eqb_eq in E. subst k'. split; [discriminate |].
      intros H. contradiction H. left. reflexivity.
    + rewrite IH. split.
      * intros H [Heq | Hin]; [| exact (H Hin)].
        subst k'. assert (H' : eqb k k = true) by (apply eqb_eq; reflexivity).
        congruence.
      * intros H Hin. apply H. right. exact Hin.
Qed.

Lemma In_dict_get (k : K) (v : V) (d : dict K V) :
  NoDup (map fst d) -> In (k, v) d -> dict_get eqb k d = Some v.
Proof.
  induction d as [| [k' v'] d IH]; simpl; intros Hnd Hin; [destruct Hin |].
  inversion Hnd as [| ? ? Hnotin Hnd']; subst.
  destruct Hin as [Heq | Hin].
  - injection Heq as -> ->.
    assert (H : eqb k k = true) by (apply eqb_eq; reflexivity).
    rewrite H. reflexivity.
  - destruct (eqb k k') eqn:E.
    + apply eqb_eq in E. subst k'. contradiction Hnotin.
      apply in_map_iff. exists (k, v). split; [reflexivity | exact Hin].
    + apply IH; assumption.
Qed.

Lemma dict_set_new (k : K) (v : V) (d : dict K V) :
  dict_get eqb k d = None -> dict_set eqb k v d = (d ++ [(k, v)])%list.
Proof.
  induction d as [| [k' v'] d IH]; simpl; [reflexivity |].
  destruct (eqb k k'); [discriminate |].
  intros H. rewrite (IH H). reflexivity.
Qed.

Lemma dict_set_NoDup (k : K) (v : V) (d : dict K V) :
  NoDup (map fst d) -> NoDup (map fst (dict_set eqb k v d)).
Proof.
  intros Hnd. rewrite dict_set_keys. unfold dict_mem.
  destruct (dict_get eqb k d) eqn:E; [exact Hnd |].
  apply dict_get_None in E.
  apply NoDup_app; [exact Hnd | repeat constructor; intros [] |].
  intros a Ha [<- | []]. exact (E Ha).
Qed.
End DictLookup.

Lemma string_eqb_eq (a b : string) : String.eqb a b = true <-> a = b.
Proof. apply String.eqb_eq. Qed.

Lemma unresolved_new name (types : dict string (option Type_)) :
  dict_get String.eqb name types = None ->
  unresolved (dict_set String.eqb name None types) = S (unresolved types).
Proof.
  intros H. rewrite (dict_set_new String.eqb name None types H).
  unfold unresolved. rewrite filter_app, length_app. simpl. lia.
Qed.

Lemma unresolved_resolve name t (types : dict string (option Type_)) :
  dict_get String.eqb name types = Some None ->
  S (unresolved (dict_set String.eqb name (Some t) types)) = unresolved types.
Proof.
  unfold unresolved.
  induction types as [| [k o] types IH]; simpl; [discriminate |].
  destruct (String.eqb name k) eqn:E; simpl.
  - intros H. injection H as ->. reflexivity.
  - intros H. destruct o; simpl; rewrite (IH H); reflexivity.
Qed.

Lemma unresolved_zero (types : dict string (option Type_)) :
  unresolved types = O <-> forall name, ~ In (name, None) types.
Proof.
  unfold unresolved.
  induction types as [| [k o] types IH]; simpl.
  - split; [intros _ name [] | reflexivity].
  - destruct o; simpl.
    + rewrite IH. split.
      * intros H name [Heq | Hin]; [discriminate Heq | exact (H name Hin)].
      * intros H name Hin. apply (H name). right. exact Hin.
    + split; [discriminate |].
      intros H. contradiction (H k). left. reflexivity.
Qed.

Lemma ScanInv_ext (seen seen' : string -> Prop)
  (shown shown' : string -> Value -> Prop) st :
  (forall n, seen n <-> seen' n) ->
  (forall n v, shown n v <-> shown' n v) ->
  ScanInv seen shown st -> ScanInv seen' shown' st.
Proof.
  intros Hs Hv (I1 & I2 & I3 & I4 & I5 & I6).
  refine (conj I1 (conj _ (conj _ (conj _ (conj I5 _))))).
  - intros n. rewrite <- Hs. apply I2.
  - intros n H v Hv'. apply (I3 n H v), Hv, Hv'.
  - intros n t H. split.
    + destruct (proj1 (I4 n t H)) as (v & Hsh & Ht).
      exists v. split; [apply Hv, Hsh | exact Ht].
    + intros v Hv'. apply (proj2 (I4 n t H)), Hv, Hv'.
  - intros n v Hv'. apply Hs, (I6 n v), Hv, Hv'.
Qed.

Lemma scan_item_register st name value :
  scan_item st (name, value)
  = (current_type <- dict_item String.eqb name (fst (register name st)) ;;
     if negb (is_None value) then
       new_type <- get_type value ;;
       match current_type with
       | None =>
           Ok (dict_set String.eqb name (Some new_type)
                 (fst (register name st)),
               snd (register name st) - 1)
       | Some current =>
           if negb (Type_eqb new_type current)
           then raise DatabaseError
                  (MsgDifferingColumnType name current new_type)
           else Ok (register name st)
       end
     else Ok (register name st)).
Proof.
  destruct st as [types unknown]. unfold scan_item, register. simpl fst.
  simpl snd. destruct (negb (dict_mem String.eqb name types)); reflexivity.
Qed.

Ltac scan_inv_parts :=
  refine (conj _ (conj _ (conj _ (conj _ (conj _ _))))); simpl fst; simpl snd.

Ltac get_set := rewrite (dict_get_set String.eqb string_eqb_eq) in *.

Lemma register_inv seen shown name st :
  ScanInv seen shown st ->
  ScanInv (fun n => seen n \/ n = name) shown (register name st)
  /\ dict_get String.eqb name (fst (register name st)) <> None.
Proof.
  destruct st as [types unknown].
  intros (I1 & I2 & I3 & I4 & I5 & I6). simpl in I1, I2, I3, I4, I5.
  unfold register, dict_mem. simpl fst. simpl snd.
  destruct (dict_get String.eqb name types) as [o |] eqn:E; simpl negb; cbv iota.
  - split; [| simpl fst; rewrite E; discriminate].
    scan_inv_parts.
    + exact I1.
    + intros n. split.
      * intros H. left. apply I2, H.
      * intros [H | ->]; [apply I2, H | rewrite E; discriminate].
    + exact I3.
    + exact I4.
    + exact I5.
    + intros n v H. left. apply (I6 n v H).
  - assert (Hnew : ~ seen name).
    { intros H. apply I2 in H. contradiction. }
    split; [| simpl fst; get_set; rewrite String.eqb_refl; discriminate].
    scan_inv_parts.
    + apply (dict_set_NoDup String.eqb string_eqb_eq). exact I1.
    + intros n. get_set.
      destruct (String.eqb n name) eqn:En.
      * apply String.eqb_eq in En. split; [intros _; right; exact En |].
        intros _. discriminate.
      * split; [intros H; left; apply I2, H |].
        intros [H | ->]; [apply I2, H | rewrite String.eqb_refl in En].
        discriminate En.
    + intros n. get_set.
      destruct (String.eqb n name) eqn:En.
      * apply String.eqb_eq in En. subst n. intros _ v Hv.
        apply Hnew, (I6 name v Hv).
      * apply I3.
    + intros n t H. get_set.
      destruct (String.eqb n name); [discriminate H |].
      exact (I4 n t H).
    + rewrite (unresolved_new name types E). lia.
    + intros n v H. left. apply (I6 n v H).
Qed.

(** A non-null value of a column whose type is still [None] freezes it. *)
Lemma freeze_inv seen (shown : string -> Value -> Prop) name value new
  types unknown :
  ScanInv seen shown (types, unknown) ->
  seen name ->
  get_type value = Ok new ->
  dict_get String.eqb name types = Some None ->
  ScanInv seen (fun n v => shown n v \/ (n = name /\ v = value))
    (dict_set String.eqb name (Some new) types, unknown - 1).
Proof.
  intros (I1 & I2 & I3 & I4 & I5 & I6) Hseen Hty E.
  simpl in I1, I2, I3, I4, I5.
  scan_inv_parts.
  - apply (dict_set_NoDup String.eqb string_eqb_eq). exact I1.
  - intros n. get_set.
    destruct (String.eqb n name) eqn:En.
    + apply String.eqb_eq in En. subst n.
      split; [intros _; exact Hseen | intros _; discriminate].
    + apply I2.
  - intros n. get_set.
    destruct (String.eqb n name) eqn:En; [discriminate |].
    intros H v [Hv | [-> _]].
    + exact (I3 n H v Hv).
    + rewrite String.eqb_refl in En. discriminate En.
  - intros n t H. get_set.
    destruct (String.eqb n name) eqn:En.
    + apply String.eqb_eq in En. subst n. injection H as <-. split.
      * exists value. split; [right; split; reflexivity | exact Hty].
      * intros v [Hv | [_ ->]]; [contradiction (I3 name E v Hv) | exact Hty].
    + split.
      * destruct (proj1 (I4 n t H)) as (v & Hv & Ht).
        exists v. split; [left; exact Hv | exact Ht].
      * intros v [Hv | [-> _]].
        -- exact (proj2 (I4 n t H) v Hv).
        -- rewrite String.eqb_refl in En. discriminate En.
  - pose proof (unresolved_resolve name new types E). lia.
  - intros n v [Hv | [-> _]]; [exact (I6 n v Hv) | exact Hseen].
Qed.

(** A non-null value of the type already frozen changes nothing. *)
Lemma agree_inv seen (shown : string -> Value -> Prop) name value current st :
  ScanInv seen shown st ->
  get_type value = Ok current ->
  dict_get String.eqb name (fst st) = Some (Some current) ->
  ScanInv seen (fun n v => shown n v \/ (n = name /\ v = value)) st.
Proof.
  intros (I1 & I2 & I3 & I4 & I5 & I6) Hty E.
  scan_inv_parts.
  - exact I1.
  - exact I2.
  - intros n H v [Hv | [-> _]]; [exact (I3 n H v Hv) | congruence].
  - intros n t H. split.
    + destruct (proj1 (I4 n t H)) as (v & Hv & Ht).
      exists v. split; [left; exact Hv | exact Ht].
    + intros v [Hv | [-> ->]]; [exact (proj2 (I4 n t H) v Hv) | congruence].
  - exact I5.
  - intros n v [Hv | [-> _]]; [exact (I6 n v Hv) |].
    apply I2. rewrite E. discriminate.
Qed.

Lemma Type_eqb_eq (a b : Type_) : Type_eqb a b = true <-> a = b.
Proof. destruct a, b; simpl; split; intros H; congruence. Qed.

Lemma seen_in_snoc items name value n :
  seen_in (items ++ [(name, value)]) n <-> seen_in items n \/ n = name.
Proof.
  unfold seen_in. rewrite map_app, in_app_iff. simpl. split.
  - intros [H | [H | []]]; [left; exact H | right; symmetry; exact H].
  - intros [H | H]; [left; exact H | right; left; symmetry; exact H].
Qed.

Lemma shown_in_snoc items name value n v :
  shown_in (items ++ [(name, value)]) n v
  <-> shown_in items n v \/ (n = name /\ v = value /\ is_None value = false).
Proof.
  unfold shown_in. rewrite in_app_iff. simpl. split.
  - intros [[H | [H | []]] Hn]; [left; split; assumption |].
    injection H as <- <-. right. repeat split. exact Hn.
  - intros [[H Hn] | (-> & -> & Hn)]; split; auto.
Qed.

Lemma conflict_in_incl items items' e :
  (forall x, In x items -> In x items') ->
  conflict_in items e -> conflict_in items' e.
Proof.
  intros Hincl [(name & current & new & v1 & v2 & He & Hne & [H1 N1] & T1
                 & [H2 N2] & T2) | (name & v & [H N] & T)].
  - left. exists name, current, new, v1, v2.
    repeat split; auto.
  - right. exists name, v. repeat split; auto.
Qed.

(** One item: the invariant is kept when the body returns. *)
Lemma scan_item_ok items st name value st' :
  ScanInv (seen_in items) (shown_in items) st ->
  scan_item st (name, value) = Ok st' ->
  ScanInv (seen_in (items ++ [(name, value)]))
    (shown_in (items ++ [(name, value)])) st'.
Proof.
  intros Hinv. rewrite scan_item_register.
  destruct (register_inv _ _ name st Hinv) as [HR Hne].
  unfold dict_item.
  destruct (dict_get String.eqb name (fst (register name st)))
    as [current |] eqn:E; [| contradiction Hne; reflexivity].
  cbn [bind].
  destruct (is_None value) eqn:Hn; cbn [negb].
  - intros H. injection H as <-. revert HR. apply ScanInv_ext.
    + intros n. symmetry. apply seen_in_snoc.
    + intros n v. rewrite shown_in_snoc. split; [auto |].
      intros [H | (_ & _ & H)]; [exact H | congruence].
  - destruct (get_type value) as [new |] eqn:Hty; cbn [bind]; [| discriminate].
    assert (Hext : forall st1,
              ScanInv (fun n => seen_in items n \/ n = name)
                (fun n v => shown_in items n v \/ (n = name /\ v = value)) st1 ->
              ScanInv (seen_in (items ++ [(name, value)]))
                (shown_in (items ++ [(name, value)])) st1).
    { intros st1. apply ScanInv_ext.
      - intros n. symmetry. apply seen_in_snoc.
      - intros n v. rewrite shown_in_snoc. split.
        + intros [H | [-> ->]]; [left; exact H | right; auto].
        + intros [H | (-> & -> & _)]; [left; exact H | right; auto]. }
    destruct current as [current |].
    + destruct (Type_eqb new current) eqn:Et; cbn [negb]; [| discriminate].
      apply Type_eqb_eq in Et. subst new.
      intros H. injection H as <-. apply Hext.
      apply agree_inv with (current := current); assumption.
    + intros H. injection H as <-. apply Hext.
      destruct (register name st) as [types1 unknown1].
      apply freeze_inv; try assumption. right. reflexivity.
Qed.

(** One item: what was seen when the body raises. *)
Lemma scan_item_raise items st name value e :
  ScanInv (seen_in items) (shown_in items) st ->
  scan_item st (name, value) = Raise e ->
  conflict_in (items ++ [(name, value)]) e.
Proof.
  intros Hinv. rewrite scan_item_register.
  destruct (register_inv _ _ name st Hinv) as [HR Hne].
  unfold dict_item.
  destruct (dict_get String.eqb name (fst (register name st)))
    as [current |] eqn:E; [| contradiction Hne; reflexivity].
  cbn [bind].
  destruct (is_None value) eqn:Hn; cbn [negb]; [discriminate |].
  assert (Hshown : shown_in (items ++ [(name, value)]) name value).
  { apply shown_in_snoc. right. auto. }
  destruct (get_type value) as [new | e'] eqn:Hty; cbn [bind].
  - destruct current as [current |]; [| discriminate].
    destruct (Type_eqb new current) eqn:Et; cbn [negb]; [discriminate |].
    intros H. injection H as <-.
    destruct HR as (_ & _ & _ & I4 & _).
    destruct (proj1 (I4 name current E)) as (v1 & Hv1 & Ht1).
    left. exists name, current, new, v1, value. repeat split; auto.
    + intros ->. destruct new; discriminate Et.
    + apply in_or_app. left. apply Hv1.
    + apply Hv1.
    + apply Hshown.
  - intros H. injection H as <-. right. exists name, value. auto.
Qed.

Lemma scan_row_ok row : forall items st st',
  ScanInv (seen_in items) (shown_in items) st ->
  foldM scan_item row st = Ok st' ->
  ScanInv (seen_in (items ++ row)) (shown_in (items ++ row)) st'.
Proof.
  induction row as [| [name value] row IH]; intros items st st' Hinv H.
  - injection H as <-. rewrite app_nil_r. exact Hinv.
  - rewrite foldM_cons in H.
    destruct (scan_item st (name, value)) as [st1 |] eqn:E; cbn [bind] in H;
      [| discriminate H].
    change (items ++ (name, value) :: row)%list
      with (items ++ [(name, value)] ++ row)%list.
    rewrite app_assoc. apply (IH _ st1); [| exact H].
    apply (scan_item_ok _ st); assumption.
Qed.

Lemma scan_row_raise row : forall items st e,
  ScanInv (seen_in items) (shown_in items) st ->
  foldM scan_item row st = Raise e ->
  conflict_in (items ++ row) e.
Proof.
  induction row as [| [name value] row IH]; intros items st e Hinv H.
  - discriminate H.
  - rewrite foldM_cons in H.
    change (items ++ (name, value) :: row)%list
      with (items ++ [(name, value)] ++ row)%list.
    rewrite app_assoc.
    destruct (scan_item st (name, value)) as [st1 | e1] eqn:E; cbn [bind] in H.
    + apply (IH _ st1); [| exact H]. apply (scan_item_ok _ st); assumption.
    + injection H as <-.
      apply conflict_in_incl with (items := (items ++ [(name, value)])%list).
      * intros x Hx. apply in_or_app. left. exact Hx.
      * apply (scan_item_raise _ st); assumption.
Qed.

Lemma has_value_shown items name :
  has_value items name = true <-> exists v, shown_in items name v.
Proof.
  unfold has_value, shown_in. rewrite existsb_exists. split.
  - intros ([n v] & Hin & H). simpl in H.
    apply andb_true_iff in H as [Hn Hv].
    apply String.eqb_eq in Hn. subst n.
    exists v. split; [exact Hin |]. destruct (is_None v); [discriminate | auto].
  - intros (v & Hin & Hv). exists (name, v). split; [exact Hin |].
    simpl. rewrite String.eqb_refl, Hv. reflexivity.
Qed.

(** The test that ends the scan: no column is left unknown exactly when
    every column seen so far has shown a non-null value. *)
Lemma unknown_columns_resolved items st :
  ScanInv (seen_in items) (shown_in items) st ->
  (snd st <=? 0) = all_resolved items.
Proof.
  intros (I1 & I2 & I3 & I4 & I5 & I6).
  apply eq_true_iff_eq. rewrite Z.leb_le, I5.
  unfold all_resolved. rewrite forallb_forall.
  assert (Hz : Z.of_nat (unresolved (fst st)) <= 0
               <-> unresolved (fst st) = O) by lia.
  rewrite Hz, unresolved_zero. split.
  - intros Hall name Hseen. apply has_value_shown.
    assert (Hget : dict_get String.eqb name (fst st) <> None)
      by (apply I2; exact Hseen).
    destruct (dict_get String.eqb name (fst st)) as [[t |] |] eqn:E.
    + destruct (proj1 (I4 name t E)) as (v & Hv & _). exists v. exact Hv.
    + apply (dict_get_In String.eqb string_eqb_eq) in E.
      contradiction (Hall name E).
    + contradiction Hget. reflexivity.
  - intros Hall name Hin.
    pose proof (In_dict_get String.eqb string_eqb_eq _ _ _ I1 Hin) as E.
    assert (Hseen : seen_in items name) by (apply I2; rewrite E; discriminate).
    apply Hall, has_value_shown in Hseen. destruct Hseen as [v Hv].
    exact (I3 name E v Hv).
Qed.

Lemma scan_rows_ok rows : forall items st st',
  ScanInv (seen_in items) (shown_in items) st ->
  scan_rows st rows = Ok st' ->
  ScanInv (seen_in (items ++ List.concat (scanned items rows)))
    (shown_in (items ++ List.concat (scanned items rows))) st'.
Proof.
  induction rows as [| row rows IH]; intros items st st' Hinv H.
  - injection H as <-. simpl. rewrite app_nil_r. exact Hinv.
  - simpl in H.
    destruct (foldM scan_item row st) as [st1 |] eqn:E; cbn [bind] in H;
      [| discriminate H].
    pose proof (scan_row_ok row items st st1 Hinv E) as Hinv1.
    rewrite (unknown_columns_resolved _ _ Hinv1) in H.
    simpl scanned. simpl List.concat.
    destruct (all_resolved (items ++ row)).
    + injection H as <-. simpl. rewrite app_nil_r. exact Hinv1.
    + rewrite app_assoc. apply (IH _ st1); assumption.
Qed.

Lemma scan_rows_raise rows : forall items st e,
  ScanInv (seen_in items) (shown_in items) st ->
  scan_rows st rows = Raise e ->
  conflict_in (items ++ List.concat (scanned items rows)) e.
Proof.
  induction rows as [| row rows IH]; intros items st e Hinv H.
  - discriminate H.
  - simpl in H. simpl scanned. simpl List.concat. rewrite app_assoc.
    destruct (foldM scan_item row st) as [st1 | e1] eqn:E; cbn [bind] in H.
    + pose proof (scan_row_ok row items st st1 Hinv E) as Hinv1.
      rewrite (unknown_columns_resolved _ _ Hinv1) in H.
      destruct (all_resolved (items ++ row)); [discriminate H |].
      apply (IH _ st1); assumption.
    + injection H as <-.
      apply conflict_in_incl with (items := (items ++ row)%list).
      * intros x Hx. apply in_or_app. left. exact Hx.
      * apply (scan_row_raise row items st); assumption.
Qed.

Lemma ScanInv_start : ScanInv (seen_in []) (shown_in []) ([], 0).
Proof.
  refine (conj _ (conj _ (conj _ (conj _ (conj _ _))))); simpl.
  - constructor.
  - intros n. split; [intros H; contradiction H; reflexivity | intros []].
  - intros n _ v [[] _].
  - intros n t H. discriminate H.
  - reflexivity.
  - intros n v [[] _].
Qed.

Lemma get_type_raise value e :
  get_type value = Raise e -> e = mkExc Error (MsgUnknownType value).
Proof.
  unfold get_type.
  destruct (isinstance value [c_str]); [discriminate |].
  destruct (isinstance value [c_int; c_float]); [discriminate |].
  destruct (isinstance value [c_bool]); [discriminate |].
  intros H. injection H as <-. reflexivity.
Qed.

(** The whole scan: on return the state describes the scanned rows, and an
    exception comes from what the scanned rows hold. *)
Lemma scan_rows_result (rows : list Row) :
  match scan_rows ([], 0) rows with
  | Ok st =>
      ScanInv (seen_in (scanned_items rows)) (shown_in (scanned_items rows)) st
  | Raise e => conflict_in (scanned_items rows) e
  end.
Proof.
  destruct (scan_rows ([], 0) rows) as [st | e] eqn:E.
  - apply (scan_rows_ok rows [] _ _ ScanInv_start E).
  - apply (scan_rows_raise rows [] _ _ ScanInv_start E).
Qed.

(** A boolean is classified by the test for [int]/[float], which comes
    first. *)
Lemma get_type_bool (b : bool) : get_type (VBool b) = Ok NUMBER.
Proof. reflexivity. Qed.

(** C1 (amended): inference scans the rows up to and including the first one
    after which every column seen so far has shown a non-null value.  When it
    succeeds, every non-null scanned value has the inferred type its column
    is described with; when a column has two non-null scanned values of
    different inferred types it fails, with the type-conflict error unless a
    scanned value of no known type is met; and a type-conflict error names a
    column and two different types, both inferred from non-null scanned
    values of that column. *)
Theorem inference_on_scanned_rows (rows : list Row) :
  (forall desc,
     get_description_from_rows rows = Ok desc ->
     forall name value,
       In (name, value) (scanned_items rows) -> is_None value = false ->
       exists t, get_type value = Ok t /\ In (describe (name, Some t)) desc)
  /\ (forall name v1 v2 t1 t2,
        In (name, v1) (scanned_items rows) ->
        In (name, v2) (scanned_items rows) ->
        is_None v1 = false -> is_None v2 = false ->
        get_type v1 = Ok t1 -> get_type v2 = Ok t2 -> t1 <> t2 ->
        exists e,
          get_description_from_rows rows = Raise e
          /\ ((forall n v, In (n, v) (scanned_items rows) ->
                           is_None v = false -> exists t, get_type v = Ok t) ->
              exists n current new,
                e = mkExc DatabaseError (MsgDifferingColumnType n current new)))
  /\ (forall name current new,
        get_description_from_rows rows
        = raise DatabaseError (MsgDifferingColumnType name current new) ->
        current <> new
        /\ exists v1 v2,
             In (name, v1) (scanned_items rows)
             /\ In (name, v2) (scanned_items rows)
             /\ is_None v1 = false /\ is_None v2 = false
             /\ get_type v1 = Ok current /\ get_type v2 = Ok new).
Proof.
  pose proof (scan_rows_result rows) as Hscan.
  unfold get_description_from_rows.
  destruct (scan_rows ([], 0) rows) as [st | e]; cbn [bind].
  - destruct Hscan as (I1 & I2 & I3 & I4 & I5 & I6).
    assert (Htyped : forall name value,
              In (name, value) (scanned_items rows) -> is_None value = false ->
              exists t, get_type value = Ok t
                        /\ dict_get String.eqb name (fst st) = Some (Some t)).
    { intros name value Hin Hn.
      assert (Hshown : shown_in (scanned_items rows) name value)
        by (split; assumption).
      pose proof (proj2 (I2 name) (I6 name value Hshown)) as Hget.
      destruct (dict_get String.eqb name (fst st)) as [[t |] |] eqn:E.
      - exists t. split; [apply (proj2 (I4 name t E)), Hshown | reflexivity].
      - contradiction (I3 name E value Hshown).
      - contradiction Hget. reflexivity. }
    split; [| split].
    + intros desc H. injection H as <-. intros name value Hin Hn.
      destruct (Htyped name value Hin Hn) as (t & Ht & E).
      exists t. split; [exact Ht |].
      apply (in_map describe). apply (dict_get_In String.eqb string_eqb_eq).
      exact E.
    + intros name v1 v2 t1 t2 H1 H2 N1 N2 T1 T2 Hne.
      destruct (Htyped name v1 H1 N1) as (t & Ht & E).
      destruct (Htyped name v2 H2 N2) as (t' & Ht' & E').
      congruence.
    + intros name current new H. discriminate H.
  - split; [| split].
    + intros desc H. discriminate H.
    + intros name v1 v2 t1 t2 _ _ _ _ _ _ _. exists e.
      split; [reflexivity |]. intros Hknown.
      destruct Hscan as [(n & current & new & _ & _ & -> & _)
                        | (n & v & [Hin Hn] & Hty)].
      * exists n, current, new. reflexivity.
      * destruct (Hknown n v Hin Hn) as [t Ht]. congruence.
    + intros name current new H. injection H as ->.
      destruct Hscan as [(n & c & w & v1 & v2 & He & Hne & [H1 N1] & T1
                          & [H2 N2] & T2)
                        | (n & v & _ & Hty)].
      * injection He as <- <- <-. split; [exact Hne |].
        exists v1, v2. repeat split; assumption.
      * apply get_type_raise in Hty. discriminate Hty.
Qed.

(** C1 (as stated): a column whose first value is a number and whose second
    value is a text is described as a number, without an error: the scan
    stops after the first row. *)
Lemma later_conflict_goes_unseen :
  get_type (VInt 1) = Ok NUMBER
  /\ get_type (VStr "x") = Ok STRING
  /\ scanned_items [[("a", VInt 1)]; [("a", VStr "x")]] = [("a", VInt 1)]
  /\ get_description_from_rows [[("a", VInt 1)]; [("a", VStr "x")]]
     = Ok [describe ("a", Some NUMBER)].
Proof. repeat split. Qed.

Lemma inference_on_scanned_rows_witness :
  exists e,
    get_description_from_rows
      [[("a", VNone); ("b", VInt 1)]; [("a", VStr "x"); ("b", VStr "y")]]
    = Raise e
    /\ ((forall n v,
           In (n, v)
             (scanned_items
                [[("a", VNone); ("b", VInt 1)];
                 [("a", VStr "x"); ("b", VStr "y")]]) ->
           is_None v = false -> exists t, get_type v = Ok t) ->
        exists n current new,
          e = mkExc DatabaseError (MsgDifferingColumnType n current new)).
Proof.
  apply (proj1 (proj2 (inference_on_scanned_rows
                         [[("a", VNone); ("b", VInt 1)];
                          [("a", VStr "x"); ("b", VStr "y")]]))
           "b" (VInt 1) (VStr "y") NUMBER STRING).
  - right. left. reflexivity.
  - right. right. right. left. reflexivity.
  - reflexivity.
  - reflexivity.
  - reflexivity.
  - reflexivity.
  - discriminate.
Defined.

(** ** [fetchall] always returns *)

(** The bound on the calls of [__next__] is never reached: each call either
    raises or takes a row off the buffer. *)
Lemma collect_returns (fuel : nat) : forall self,
  (buffered self < fuel)%nat -> exists out, collect fuel self = Some out.
Proof.
  induction fuel as [| fuel IH]; intros self Hlt; [lia |].
  simpl collect.
  unfold Cursor_next, check_closed. simpl closed.
  destruct (cursor_closed self) eqn:Hc; [eexists; reflexivity |].
  unfold Cursor_fetchone, check_result, check_closed. simpl closed.
  destruct (_results self) as [[| row rest] |] eqn:Hr; rewrite ?Hc;
    try (eexists; reflexivity).
  destruct (IH (set_results (Some rest) self)) as [[[rows | e] self''] Hout].
  - unfold buffered in *. rewrite Hr in Hlt. simpl in *. lia.
  - rewrite Hout. eexists. reflexivity.
  - rewrite Hout. eexists. reflexivity.
Qed.

Lemma Cursor_list_within_bound self :
  exists out, collect (S (buffered (snd (Cursor_iter self))))
                (snd (Cursor_iter self)) = Some out.
Proof. apply collect_returns. lia. Qed.

(** * Further properties of the module *)

(** ** Fetching *)

Lemma set_results_same self results :
  _results self = Some results -> set_results (Some results) self = self.
Proof. destruct self; simpl; intros ->; reflexivity. Qed.

Lemma fetchmany_open self size results :
  cursor_closed self = false ->
  _results self = Some results ->
  Cursor_fetchmany size self
  = (Ok (slice_to results (batch_size size self)),
     set_results (Some (slice_from results (batch_size size self))) self).
Proof.
  intros Hopen Hres. unfold Cursor_fetchmany, check_result, check_closed.
  simpl closed. rewrite Hres, Hopen. reflexivity.
Qed.

(** X1: on an open cursor that has executed, [fetchmany] returns a prefix of
    the buffer and leaves the rest, so no row is lost or repeated; a positive
    size [n] gives the first [n] rows (all of them when fewer are left), and
    a negative size gives all rows but the last [-n]. *)
Theorem fetchmany_splits_buffer self size results :
  cursor_closed self = false ->
  _results self = Some results ->
  exists output rest,
    Cursor_fetchmany size self = (Ok output, set_results (Some rest) self)
    /\ (output ++ rest)%list = results
    /\ (0 < batch_size size self ->
        output = firstn (Z.to_nat (batch_size size self)) results
        /\ List.length output
           = Nat.min (Z.to_nat (batch_size size self)) (List.length results))
    /\ (batch_size size self < 0 ->
        output = firstn (List.length results
                         - Z.to_nat (- batch_size size self)) results).
Proof.
  intros Hopen Hres.
  exists (slice_to results (batch_size size self)),
    (slice_from results (batch_size size self)).
  split; [apply fetchmany_open; assumption |].
  unfold slice_to, slice_from, slice_bound.
  split; [apply firstn_skipn | split].
  - intros Hpos. destruct (batch_size size self <? 0) eqn:E.
    + apply Z.ltb_lt in E. lia.
    + split; [reflexivity | apply length_firstn].
  - intros Hneg. apply Z.ltb_lt in Hneg as E. rewrite E.
    f_equal. lia.
Qed.

Lemma fetchmany_splits_buffer_witness :
  exists output rest,
    Cursor_fetchmany (Some 2)
      (set_results (Some [[VInt 1]; [VInt 2]; [VInt 3]]) Cursor_init)
    = (Ok output,
       set_results (Some rest)
         (set_results (Some [[VInt 1]; [VInt 2]; [VInt 3]]) Cursor_init))
    /\ (output ++ rest)%list = [[VInt 1]; [VInt 2]; [VInt 3]]
    /\ (0 < 2 ->
        output = firstn (Z.to_nat 2) [[VInt 1]; [VInt 2]; [VInt 3]]
        /\ List.length output = Nat.min (Z.to_nat 2) 3)
    /\ (2 < 0 ->
        output = firstn (3 - Z.to_nat (- 2)) [[VInt 1]; [VInt 2]; [VInt 3]]).
Proof.
  apply (fetchmany_splits_buffer
           (set_results (Some [[VInt 1]; [VInt 2]; [VInt 3]]) Cursor_init)
           (Some 2) [[VInt 1]; [VInt 2]; [VInt 3]] eq_refl eq_refl).
Defined.

(** X2: two calls of [fetchmany] with positive sizes [n] and [m] return the
    first [n] rows and then the next [m] rows, and leave what follows them
    in the buffer. *)
Theorem fetchmany_twice self n m results :
  cursor_closed self = false ->
  _results self = Some results ->
  0 < n -> 0 < m ->
  let first := Cursor_fetchmany (Some n) self in
  let second := Cursor_fetchmany (Some m) (snd first) in
  fst first = Ok (firstn (Z.to_nat n) results)
  /\ fst second = Ok (firstn (Z.to_nat m) (skipn (Z.to_nat n) results))
  /\ snd second
     = set_results (Some (skipn (Z.to_nat n + Z.to_nat m) results)) self.
Proof.
  intros Hopen Hres Hn Hm first second.
  assert (Hsize : forall k c, 0 < k -> batch_size (Some k) c = k).
  { intros k c Hk. unfold batch_size.
    destruct (k =? 0) eqn:E; [apply Z.eqb_eq in E; lia | reflexivity]. }
  assert (Hbound : forall (l : list RowTuple) k, 0 < k ->
                     slice_bound l k = Z.to_nat k).
  { intros l k Hk. unfold slice_bound.
    destruct (k <? 0) eqn:E; [apply Z.ltb_lt in E; lia | reflexivity]. }
  assert (Hfirst : first
                   = (Ok (firstn (Z.to_nat n) results),
                      set_results (Some (skipn (Z.to_nat n) results)) self)).
  { unfold first. rewrite (fetchmany_open self (Some n) results Hopen Hres).
    rewrite (Hsize n self Hn). unfold slice_to, slice_from.
    rewrite (Hbound results n Hn). reflexivity. }
  unfold second. rewrite Hfirst. simpl fst. simpl snd.
  split; [reflexivity |].
  rewrite (fetchmany_open _ (Some m) (skipn (Z.to_nat n) results));
    [| exact Hopen | reflexivity].
  rewrite (Hsize m _ Hm). unfold slice_to, slice_from.
  rewrite (Hbound _ m Hm). simpl fst. simpl snd.
  split; [reflexivity |].
  rewrite skipn_skipn, Nat.add_comm. reflexivity.
Qed.

Lemma fetchmany_twice_witness :
  let self :=
    set_results
      (Some [[VInt 1]; [VInt 2]; [VInt 3]; [VInt 4]; [VInt 5]]) Cursor_init in
  fst (Cursor_fetchmany (Some 3) self)
  = Ok [[VInt 1]; [VInt 2]; [VInt 3]]
  /\ fst (Cursor_fetchmany (Some 3) (snd (Cursor_fetchmany (Some 3) self)))
     = Ok [[VInt 4]; [VInt 5]]
  /\ snd (Cursor_fetchmany (Some 3) (snd (Cursor_fetchmany (Some 3) self)))
     = set_results (Some []) self.
Proof.
  apply (fetchmany_twice
           (set_results
              (Some [[VInt 1]; [VInt 2]; [VInt 3]; [VInt 4]; [VInt 5]])
              Cursor_init)
           3 3 [[VInt 1]; [VInt 2]; [VInt 3]; [VInt 4]; [VInt 5]]
           eq_refl eq_refl eq_refl eq_refl).
Defined.

(** The loop of [list(self)] on an open cursor: it returns the buffered rows
    in order and leaves the buffer empty. *)
Lemma collect_drains results : forall fuel self,
  cursor_closed self = false ->
  _results self = Some results ->
  (List.length results < fuel)%nat ->
  collect fuel self = Some (Ok results, set_results (Some []) self).
Proof.
  induction results as [| row rest IH]; intros fuel self Hopen Hres Hlt;
    (destruct fuel as [| fuel]; [simpl in Hlt; lia |]).
  - simpl collect. unfold Cursor_next, check_closed. simpl closed.
    rewrite Hopen. unfold Cursor_fetchone, check_result, check_closed.
    simpl closed. rewrite Hres, Hopen. simpl.
    rewrite (set_results_same self [] Hres). reflexivity.
  - simpl collect. unfold Cursor_next, check_closed. simpl closed.
    rewrite Hopen. unfold Cursor_fetchone, check_result, check_closed.
    simpl closed. rewrite Hres, Hopen.
    rewrite (IH fuel (set_results (Some rest) self));
      [reflexivity | exact Hopen | reflexivity | simpl in Hlt; lia].
Qed.

Lemma fetchall_open self results :
  cursor_closed self = false ->
  _results self = Some results ->
  Cursor_fetchall self = (Ok results, set_results (Some []) self).
Proof.
  intros Hc Hr.
  unfold Cursor_fetchall, check_result, check_closed. simpl closed.
  rewrite Hr, Hc. unfold Cursor_list, Cursor_iter, check_closed.
  simpl closed. rewrite Hc.
  rewrite (collect_drains results (S (buffered self)) self Hc Hr);
    [reflexivity |].
  unfold buffered. rewrite Hr. lia.
Qed.

(** X3: on an open cursor that has executed, [fetchall] returns every
    buffered row, in order, and leaves the buffer empty, so a second
    [fetchall] returns the empty list. *)
Theorem fetchall_drains_buffer self results :
  cursor_closed self = false ->
  _results self = Some results ->
  Cursor_fetchall self = (Ok results, set_results (Some []) self)
  /\ Cursor_fetchall (snd (Cursor_fetchall self))
     = (Ok [], set_results (Some []) self).
Proof.
  intros Hopen Hres.
  split; [apply fetchall_open; assumption |].
  rewrite (fetchall_open self results Hopen Hres). simpl snd.
  apply (fetchall_open (set_results (Some []) self) []);
    [exact Hopen | reflexivity].
Qed.

Lemma fetchall_drains_buffer_witness :
  Cursor_fetchall (set_results (Some [[VInt 1]; [VInt 2]]) Cursor_init)
  = (Ok [[VInt 1]; [VInt 2]],
     set_results (Some [])
       (set_results (Some [[VInt 1]; [VInt 2]]) Cursor_init))
  /\ Cursor_fetchall
       (snd (Cursor_fetchall
               (set_results (Some [[VInt 1]; [VInt 2]]) Cursor_init)))
     = (Ok [],
        set_results (Some [])
          (set_results (Some [[VInt 1]; [VInt 2]]) Cursor_init)).
Proof.
  apply (fetchall_drains_buffer
           (set_results (Some [[VInt 1]; [VInt 2]]) Cursor_init)
           [[VInt 1]; [VInt 2]] eq_refl eq_refl).
Defined.

(** ** What [execute] does to the cursor *)

Section ExecuteState.
Variable percent_format : string -> dict string Value -> Res string.

Lemma execute_open operation (parameters : option (dict string Value)) r self :
  cursor_closed self = false ->
  Cursor_execute percent_format operation parameters r self
  = match response_rows percent_format operation parameters r with
    | Raise e => (Raise e, self)
    | Ok rows =>
        let self := set_results (Some []) (set_description None self) in
        match rows with
        | [] => (Ok tt, self)
        | first_row :: _ =>
            match get_description_from_rows rows with
            | Raise e => (Raise e, self)
            | Ok d =>
                let self := set_description (Some d) self in
                match mapM (make_Row (map fst first_row)) rows with
                | Raise e => (Raise e, self)
                | Ok results => (Ok tt, set_results (Some results) self)
                end
            end
        end
    end.
Proof.
  intros Hopen. unfold Cursor_execute, check_closed. simpl closed.
  rewrite Hopen. reflexivity.
Qed.

Lemma execute_keeps_settings operation
  (parameters : option (dict string Value)) r self :
  rowcount (snd (Cursor_execute percent_format operation parameters r self))
  = rowcount self
  /\ arraysize (snd (Cursor_execute percent_format operation parameters r self))
     = arraysize self
  /\ cursor_closed
       (snd (Cursor_execute percent_format operation parameters r self))
     = cursor_closed self.
Proof.
  destruct (cursor_closed self) eqn:Hc.
  - unfold Cursor_execute, check_closed. simpl closed. rewrite Hc.
    simpl. auto.
  - rewrite (execute_open operation parameters r self Hc).
    destruct (response_rows percent_format operation parameters r)
      as [[| first_row rest] | e]; simpl; auto.
    destruct (get_description_from_rows (first_row :: rest)); simpl; auto.
    destruct (make_Row (map fst first_row) first_row); simpl; auto.
    destruct (mapM (make_Row (map fst first_row)) rest); simpl; auto.
Qed.

(** X5: a failure before the rows are decoded (templating, body decoding,
    the payload checks, the aggregation merge) leaves the cursor exactly as
    it was, previous results included; a failure of schema inference on the
    decoded rows leaves it with no description and an empty buffer, so the
    previous results are gone and [fetchone] returns [None]. *)
Theorem execute_failure_state operation
  (parameters : option (dict string Value)) r self e :
  cursor_closed self = false ->
  (response_rows percent_format operation parameters r = Raise e ->
   Cursor_execute percent_format operation parameters r self = (Raise e, self))
  /\ (forall rows,
        response_rows percent_format operation parameters r = Ok rows ->
        get_description_from_rows rows = Raise e ->
        rows <> [] ->
        let self' := set_results (Some []) (set_description None self) in
        Cursor_execute percent_format operation parameters r self
        = (Raise e, self')
        /\ Cursor_fetchone self' = (Ok None, self')).
Proof.
  intros Hopen. split.
  - intros H. rewrite (execute_open _ _ _ _ Hopen), H. reflexivity.
  - intros rows Hrows Hdesc Hne self'.
    rewrite (execute_open _ _ _ _ Hopen), Hrows.
    destruct rows as [| first_row rest]; [contradiction Hne; reflexivity |].
    cbv zeta. rewrite Hdesc. split; [reflexivity |].
    unfold Cursor_fetchone, check_result, check_closed, self'. simpl.
    rewrite Hopen. reflexivity.
Qed.

Lemma execute_replaces_results operation
  (parameters : option (dict string Value)) r self rows d0 results0 :
  cursor_closed self = false ->
  response_rows percent_format operation parameters r = Ok rows ->
  Cursor_execute percent_format operation parameters r
    (set_results results0 (set_description d0 self))
  = Cursor_execute percent_format operation parameters r self.
Proof.
  intros Hopen Hrows.
  rewrite (execute_open _ _ _ self Hopen).
  rewrite (execute_open _ _ _ (set_results results0 (set_description d0 self)));
    [| exact Hopen].
  rewrite Hrows. reflexivity.
Qed.

Lemma same_settings self c :
  arraysize c = arraysize self ->
  cursor_closed c = cursor_closed self ->
  rowcount c = rowcount self ->
  c = set_results (_results c) (set_description (description c) self).
Proof.
  destruct self, c. simpl. intros -> -> ->. reflexivity.
Qed.

Lemma fetchmany_keeps_settings size c :
  arraysize (snd (Cursor_fetchmany size c)) = arraysize c
  /\ cursor_closed (snd (Cursor_fetchmany size c)) = cursor_closed c
  /\ rowcount (snd (Cursor_fetchmany size c)) = rowcount c.
Proof.
  unfold Cursor_fetchmany, check_result, check_closed. simpl closed.
  destruct (_results c) eqn:Hr; [| simpl; auto].
  destruct (cursor_closed c) eqn:Hc; simpl; auto.
Qed.

(** X6: [execute] starts the result set afresh: after a successful
    [execute] and a [fetchmany] of any size, executing again with the same
    response gives the same outcome and the same cursor as the first
    [execute] did, with every row back in the buffer. *)
Theorem reexecute_restores_buffer operation
  (parameters : option (dict string Value)) r self size :
  cursor_closed self = false ->
  fst (Cursor_execute percent_format operation parameters r self) = Ok tt ->
  Cursor_execute percent_format operation parameters r
    (snd (Cursor_fetchmany size
            (snd (Cursor_execute percent_format operation parameters r self))))
  = Cursor_execute percent_format operation parameters r self.
Proof.
  intros Hopen Hok.
  destruct (response_rows percent_format operation parameters r)
    as [rows | e] eqn:Hrows.
  2: { rewrite (execute_open _ _ _ _ Hopen), Hrows in Hok. discriminate Hok. }
  set (c1 := snd (Cursor_execute percent_format operation parameters r self)).
  set (c2 := snd (Cursor_fetchmany size c1)).
  destruct (execute_keeps_settings operation parameters r self)
    as (Hrc & Has & Hcl). fold c1 in Hrc, Has, Hcl.
  destruct (fetchmany_keeps_settings size c1) as (Has2 & Hcl2 & Hrc2).
  fold c2 in Has2, Hcl2, Hrc2.
  rewrite (same_settings self c2); try congruence.
  apply execute_replaces_results with (rows := rows); assumption.
Qed.
End ExecuteState.

Lemma fetchone_keeps_settings c :
  rowcount (snd (Cursor_fetchone c)) = rowcount c
  /\ arraysize (snd (Cursor_fetchone c)) = arraysize c
  /\ cursor_closed (snd (Cursor_fetchone c)) = cursor_closed c.
Proof.
  unfold Cursor_fetchone, check_result, check_closed. simpl closed.
  destruct (_results c) as [[| row rest] |] eqn:Hr; [| | simpl; auto];
    destruct (cursor_closed c) eqn:Hc; simpl; auto.
Qed.

Lemma next_keeps_settings c :
  rowcount (snd (Cursor_next c)) = rowcount c
  /\ arraysize (snd (Cursor_next c)) = arraysize c
  /\ cursor_closed (snd (Cursor_next c)) = cursor_closed c.
Proof.
  unfold Cursor_next, check_closed. simpl closed.
  destruct (cursor_closed c) eqn:Hc; [simpl; auto |].
  pose proof (fetchone_keeps_settings c) as H.
  destruct (Cursor_fetchone c) as [[[row |] | e] c']; simpl in *;
    rewrite Hc in H; exact H.
Qed.

Lemma collect_keeps_settings fuel : forall c out,
  collect fuel c = Some out ->
  rowcount (snd out) = rowcount c
  /\ arraysize (snd out) = arraysize c
  /\ cursor_closed (snd out) = cursor_closed c.
Proof.
  induction fuel as [| fuel IH]; intros c out H; [discriminate H |].
  simpl in H. pose proof (next_keeps_settings c) as (Hr & Ha & Hc).
  destruct (Cursor_next c) as [[row | e] c1]; simpl in Hr, Ha, Hc.
  - destruct (collect fuel c1) as [[[rows | e] c2] |] eqn:E;
      [| | discriminate H];
      injection H as <-; destruct (IH c1 _ E) as (Hr2 & Ha2 & Hc2);
      simpl in *; repeat split; congruence.
  - destruct (is_StopIteration e); injection H as <-; simpl; auto.
Qed.

(** X4: no operation of a cursor ever writes [rowcount]: whatever their
    outcome, [execute], [fetchone], [fetchmany] and [fetchall] leave
    [rowcount] and [arraysize] as they were, so [rowcount] keeps the value
    -1 it is created with however many rows are decoded or fetched. *)
Theorem rowcount_is_never_updated
  (percent_format : string -> dict string Value -> Res string) operation
  (parameters : option (dict string Value)) r size self :
  (rowcount (snd (Cursor_execute percent_format operation parameters r self))
   = rowcount self
   /\ arraysize
        (snd (Cursor_execute percent_format operation parameters r self))
      = arraysize self)
  /\ (rowcount (snd (Cursor_fetchone self)) = rowcount self
      /\ arraysize (snd (Cursor_fetchone self)) = arraysize self)
  /\ (rowcount (snd (Cursor_fetchmany size self)) = rowcount self
      /\ arraysize (snd (Cursor_fetchmany size self)) = arraysize self)
  /\ (rowcount (snd (Cursor_fetchall self)) = rowcount self
      /\ arraysize (snd (Cursor_fetchall self)) = arraysize self)
  /\ rowcount
       (snd (Cursor_execute percent_format operation parameters r Cursor_init))
     = -1.
Proof.
  pose proof (execute_keeps_settings percent_format operation parameters r
                self) as (He1 & He2 & _).
  pose proof (fetchone_keeps_settings self) as (Ho1 & Ho2 & _).
  pose proof (fetchmany_keeps_settings size self) as (Hm2 & _ & Hm1).
  pose proof (execute_keeps_settings percent_format operation parameters r
                Cursor_init) as (Hi & _).
  repeat split; try assumption.
  - unfold Cursor_fetchall, check_result, check_closed. simpl closed.
    destruct (_results self) eqn:Hr; [| reflexivity].
    destruct (cursor_closed self) eqn:Hc; [reflexivity |].
    unfold Cursor_list, Cursor_iter, check_closed. simpl closed. rewrite Hc.
    destruct (collect (S (buffered self)) self) as [out |] eqn:E;
      [| reflexivity].
    apply (collect_keeps_settings _ _ _ E).
  - unfold Cursor_fetchall, check_result, check_closed. simpl closed.
    destruct (_results self) eqn:Hr; [| reflexivity].
    destruct (cursor_closed self) eqn:Hc; [reflexivity |].
    unfold Cursor_list, Cursor_iter, check_closed. simpl closed. rewrite Hc.
    destruct (collect (S (buffered self)) self) as [out |] eqn:E;
      [| reflexivity].
    apply (collect_keeps_settings _ _ _ E).
Qed.

Lemma execute_failure_state_witness :
  Cursor_execute no_placeholders "q" None (response 200 (empty_payload 2 3))
    (set_results (Some [[VInt 1]]) Cursor_init)
  = (raise DatabaseError (MsgTimedOut "q" 3 2),
     set_results (Some [[VInt 1]]) Cursor_init).
Proof.
  apply (proj1 (execute_failure_state no_placeholders "q" None
                  (response 200 (empty_payload 2 3))
                  (set_results (Some [[VInt 1]]) Cursor_init)
                  (mkExc DatabaseError (MsgTimedOut "q" 3 2)) eq_refl)).
  reflexivity.
Defined.

Lemma reexecute_restores_buffer_witness :
  Cursor_execute no_placeholders "q" None
    (response 200
       (mkPayload (Some 1) (Some 1) None None
          (Some (mkSelection ["a"] [[VInt 1]; [VInt 2]]))))
    (snd (Cursor_fetchmany (Some 1)
            (snd (Cursor_execute no_placeholders "q" None
                    (response 200
                       (mkPayload (Some 1) (Some 1) None None
                          (Some (mkSelection ["a"] [[VInt 1]; [VInt 2]]))))
                    Cursor_init))))
  = Cursor_execute no_placeholders "q" None
      (response 200
         (mkPayload (Some 1) (Some 1) None None
            (Some (mkSelection ["a"] [[VInt 1]; [VInt 2]]))))
      Cursor_init.
Proof.
  apply (reexecute_restores_buffer no_placeholders "q" None
           (response 200
              (mkPayload (Some 1) (Some 1) None None
                 (Some (mkSelection ["a"] [[VInt 1]; [VInt 2]]))))
           Cursor_init (Some 1) eq_refl eq_refl).
Defined.

(** ** Rows built by zipping names and values *)

Section DictUpdate.
Context {K V : Type} (eqb : K -> K -> bool).
Hypothesis eqb_eq : forall a b, eqb a b = true <-> a = b.

Lemma dict_set_length (k : K) (v : V) (d : dict K V) :
  List.length (dict_set eqb k v d)
  = if dict_mem eqb k d then List.length d else S (List.length d).
Proof.
  rewrite <- (length_map fst (dict_set eqb k v d)), dict_set_keys.
  destruct (dict_mem eqb k d).
  - apply length_map.
  - rewrite length_app, length_map. simpl. lia.
Qed.

Lemma dict_update_cons (d : dict K V) (k : K) (v : V) (pairs : list (K * V)) :
  dict_update eqb d ((k, v) :: pairs)
  = dict_update eqb (dict_set eqb k v d) pairs.
Proof. reflexivity. Qed.

Lemma dict_update_app (d : dict K V) (p1 p2 : list (K * V)) :
  dict_update eqb d (p1 ++ p2)%list
  = dict_update eqb (dict_update eqb d p1) p2.
Proof. unfold dict_update. apply fold_left_app. Qed.

(** Updating with keys that are all new and all different appends the pairs
    as they are. *)
Lemma dict_update_distinct (pairs : list (K * V)) : forall d : dict K V,
  NoDup (map fst d ++ map fst pairs)%list ->
  dict_update eqb d pairs = (d ++ pairs)%list.
Proof.
  induction pairs as [| [k v] pairs IH]; intros d Hnd.
  - simpl. rewrite app_nil_r. reflexivity.
  - rewrite dict_update_cons. simpl in Hnd.
    assert (Hnew : dict_get eqb k d = None).
    { apply (dict_get_None eqb eqb_eq). intros Hin.
      apply NoDup_remove_2 in Hnd. apply Hnd. apply in_or_app. left. exact Hin. }
    rewrite (dict_set_new eqb k v d Hnew).
    rewrite IH.
    + rewrite <- app_assoc. reflexivity.
    + rewrite map_app, <- app_assoc. exact Hnd.
Qed.

Lemma dict_update_length_le (pairs : list (K * V)) : forall d : dict K V,
  (List.length (dict_update eqb d pairs)
   <= List.length d + List.length pairs)%nat.
Proof.
  induction pairs as [| [k v] pairs IH]; intros d.
  - simpl. lia.
  - rewrite dict_update_cons.
    change (List.length ((k, v) :: pairs)) with (S (List.length pairs)).
    pose proof (IH (dict_set eqb k v d)) as H.
    rewrite dict_set_length in H. destruct (dict_mem eqb k d); lia.
Qed.

(** A repeated key makes the result shorter than the list of pairs. *)
Lemma dict_update_collision (pairs : list (K * V)) : forall d : dict K V,
  NoDup (map fst d) ->
  ~ NoDup (map fst d ++ map fst pairs)%list ->
  (List.length (dict_update eqb d pairs)
   < List.length d + List.length pairs)%nat.
Proof.
  induction pairs as [| [k v] pairs IH]; intros d Hnd Hdup.
  - simpl in Hdup. rewrite app_nil_r in Hdup. contradiction.
  - rewrite dict_update_cons.
    change (List.length ((k, v) :: pairs)) with (S (List.length pairs)).
    destruct (dict_get eqb k d) as [v0 |] eqn:E.
    + pose proof (dict_update_length_le pairs (dict_set eqb k v d)) as H.
      rewrite dict_set_length in H. unfold dict_mem in H. rewrite E in H. lia.
    + pose proof (IH (dict_set eqb k v d)) as H.
      rewrite (dict_set_new eqb k v d E) in H.
      rewrite map_app, length_app in H. simpl in H.
      rewrite <- app_assoc in H. simpl in H.
      assert (Hlt : (List.length (dict_update eqb (d ++ [(k, v)])%list pairs)
                     < List.length d + 1 + List.length pairs)%nat).
      { apply H; [| exact Hdup].
        apply NoDup_app; [exact Hnd | repeat constructor; intros [] |].
        intros a Ha [<- | []].
        apply (dict_get_None eqb eqb_eq) in E. exact (E Ha). }
      rewrite (dict_set_new eqb k v d E). lia.
Qed.
End DictUpdate.

Lemma map_fst_combine {A B : Type} (l1 : list A) : forall l2 : list B,
  List.length l1 = List.length l2 -> map fst (combine l1 l2) = l1.
Proof.
  induction l1 as [| x l1 IH]; intros [| y l2] H; simpl in *;
    try reflexivity; try discriminate.
  rewrite IH; [reflexivity | lia].
Qed.

Lemma combine_app_same {A B : Type} (l1 : list A) : forall (l2 : list B) l1' l2',
  List.length l1 = List.length l2 ->
  combine (l1 ++ l1') (l2 ++ l2') = (combine l1 l2 ++ combine l1' l2')%list.
Proof.
  induction l1 as [| x l1 IH]; intros [| y l2] l1' l2' H; simpl in *;
    try reflexivity; try discriminate.
  rewrite IH; [reflexivity | lia].
Qed.

Lemma NoDup_map_fst_combine {A B : Type} (l1 : list A) : forall l2 : list B,
  NoDup l1 -> NoDup (map fst (combine l1 l2)).
Proof.
  induction l1 as [| x l1 IH]; intros l2 Hnd; [constructor |].
  destruct l2 as [| y l2]; [constructor |].
  inversion Hnd as [| ? ? Hnotin Hnd']; subst. simpl. constructor.
  - intros Hin. apply in_map_iff in Hin as ([a b] & Ha & Hin).
    simpl in Ha. subst a. apply in_combine_l in Hin. contradiction.
  - apply IH. exact Hnd'.
Qed.

Lemma selection_rows_zip (results : Selection) :
  NoDup (sel_columns results) ->
  selection_rows results
  = map (combine (sel_columns results)) (sel_results results).
Proof.
  intros Hnd. unfold selection_rows. apply map_ext. intros result.
  apply (dict_update_distinct String.eqb string_eqb_eq). simpl.
  apply NoDup_map_fst_combine. exact Hnd.
Qed.

(** X7: when the column names of a selection result are all different, each
    result is zipped with them as it is, so the rows come out in the order
    of the results, one per result, a result shorter than the column list
    giving a shorter row. *)
Theorem selection_rows_pass_through (results : Selection) :
  NoDup (sel_columns results) ->
  selection_rows results
  = map (combine (sel_columns results)) (sel_results results)
  /\ List.length (selection_rows results)
     = List.length (sel_results results)
  /\ (forall i result,
        nth_error (sel_results results) i = Some result ->
        nth_error (selection_rows results) i
        = Some (combine (sel_columns results) result)
        /\ List.length (combine (sel_columns results) result)
           = Nat.min (List.length (sel_columns results)) (List.length result))
  /\ forall responded queried excs,
       payload_rows (mkPayload responded queried excs None (Some results))
       = Ok (map (combine (sel_columns results)) (sel_results results)).
Proof.
  intros Hnd.
  pose proof (selection_rows_zip results Hnd) as Heq.
  split; [exact Heq | split; [| split]].
  - rewrite Heq. apply length_map.
  - intros i result Hres. rewrite Heq. split.
    + apply map_nth_error. exact Hres.
    + apply length_combine.
  - intros responded queried excs. unfold payload_rows. simpl.
    rewrite Heq. reflexivity.
Qed.

Ltac distinct_strings :=
  repeat (apply NoDup_cons; [simpl; intuition discriminate |]);
  apply NoDup_nil.

Lemma selection_rows_pass_through_witness :
  selection_rows (mkSelection ["a"; "b"] [[VInt 1; VStr "x"]; [VInt 2; VStr "y"]])
  = [[("a", VInt 1); ("b", VStr "x")]; [("a", VInt 2); ("b", VStr "y")]].
Proof.
  apply (proj1 (selection_rows_pass_through
                  (mkSelection ["a"; "b"]
                     [[VInt 1; VStr "x"]; [VInt 2; VStr "y"]])
                  ltac:(distinct_strings))).
Defined.

Lemma make_row_unfold gby_cols metric_names group_vals metric_vals :
  List.length group_vals = List.length gby_cols ->
  List.length metric_vals = List.length metric_names ->
  make_row gby_cols metric_names (group_vals, metric_vals)
  = let row :=
      dict_update String.eqb []
        (combine (gby_cols ++ metric_names)
           (map VStr group_vals ++ metric_vals)) in
    if negb (List.length row
             =? List.length gby_cols + List.length metric_names)%nat
    then raise DatabaseError
           (MsgNameCollision
              (List.length gby_cols + List.length metric_names)
              (List.length row) row)
    else Ok row.
Proof.
  intros Hg Hm. unfold make_row. rewrite Hg, Hm, !Nat.eqb_refl.
  cbn [negb]. cbv zeta.
  rewrite combine_app_same by (rewrite length_map; symmetry; exact Hg).
  rewrite (dict_update_app String.eqb). reflexivity.
Qed.

(** X8: for a group key and a metric array of the right lengths, a row is
    built exactly when the group-by column names and the metric names are
    all different, and it then lists the group-by columns followed by the
    metrics, each with its value; a repeated name makes the row come out
    short and is reported as a name collision. *)
Theorem make_row_distinct_names gby_cols metric_names group_vals metric_vals :
  List.length group_vals = List.length gby_cols ->
  List.length metric_vals = List.length metric_names ->
  (NoDup (gby_cols ++ metric_names) ->
   make_row gby_cols metric_names (group_vals, metric_vals)
   = Ok (combine (gby_cols ++ metric_names)
           (map VStr group_vals ++ metric_vals)))
  /\ (~ NoDup (gby_cols ++ metric_names) ->
      exists got row,
        (got < List.length gby_cols + List.length metric_names)%nat
        /\ make_row gby_cols metric_names (group_vals, metric_vals)
           = raise DatabaseError
               (MsgNameCollision
                  (List.length gby_cols + List.length metric_names) got row)).
Proof.
  intros Hg Hm.
  assert (Hlen : List.length (gby_cols ++ metric_names)
                 = List.length (map VStr group_vals ++ metric_vals)).
  { rewrite !length_app, length_map. lia. }
  rewrite (make_row_unfold _ _ _ _ Hg Hm). cbv zeta. split.
  - intros Hnd.
    rewrite (dict_update_distinct String.eqb string_eqb_eq).
    + simpl. rewrite length_combine, <- Hlen, Nat.min_id, length_app.
      rewrite Nat.eqb_refl. reflexivity.
    + simpl. rewrite (map_fst_combine _ _ Hlen). exact Hnd.
  - intros Hdup.
    pose proof (dict_update_collision String.eqb string_eqb_eq
                  (combine (gby_cols ++ metric_names)
                     (map VStr group_vals ++ metric_vals)) []) as Hlt.
    simpl in Hlt. rewrite (map_fst_combine _ _ Hlen) in Hlt.
    specialize (Hlt (NoDup_nil _) Hdup).
    rewrite length_combine, <- Hlen, Nat.min_id, length_app in Hlt.
    eexists. eexists. split; [exact Hlt |].
    destruct (Nat.eqb_spec
                (List.length
                   (dict_update String.eqb []
                      (combine (gby_cols ++ metric_names)
                         (map VStr group_vals ++ metric_vals))))
                (List.length gby_cols + List.length metric_names)) as [E | E].
    + lia.
    + reflexivity.
Qed.

Lemma make_row_distinct_names_witness :
  make_row ["city"] ["count"; "sum"] (["NYC"], [VInt 5; VInt 7])
  = Ok [("city", VStr "NYC"); ("count", VInt 5); ("sum", VInt 7)]
  /\ exists got row,
       (got < 1 + 2)%nat
       /\ make_row ["city"] ["count"; "city"] (["NYC"], [VInt 5; VInt 7])
          = raise DatabaseError (MsgNameCollision (1 + 2) got row).
Proof.
  split.
  - apply (proj1 (make_row_distinct_names ["city"] ["count"; "sum"]
                    ["NYC"] [VInt 5; VInt 7] eq_refl eq_refl)).
    distinct_strings.
  - apply (proj2 (make_row_distinct_names ["city"] ["count"; "city"]
                    ["NYC"] [VInt 5; VInt 7] eq_refl eq_refl)).
    intros H. inversion H as [| ? ? Hnotin _]. apply Hnotin.
    simpl. right. left. reflexivity.
Defined.

(** ** The shape of the merged aggregation rows *)

Lemma mapM_ok_inv {A B : Type} (f : A -> Res B) (l : list A) : forall l',
  mapM f l = Ok l' -> Forall2 (fun x y => f x = Ok y) l l'.
Proof.
  induction l as [| x l IH]; intros l' H; simpl in H.
  - injection H as <-. constructor.
  - destruct (f x) as [y |] eqn:E; cbn [bind] in H; [| discriminate H].
    destruct (mapM f l) as [ys |]; cbn [bind] in H; [| discriminate H].
    injection H as <-. constructor; [exact E | apply IH; reflexivity].
Qed.

Lemma mapM_raise_inv {A B : Type} (f : A -> Res B) (l : list A) e :
  mapM f l = Raise e -> exists x, In x l /\ f x = Raise e.
Proof.
  induction l as [| x l IH]; simpl; [discriminate |].
  destruct (f x) as [y | e1] eqn:E; cbn [bind].
  - destruct (mapM f l) as [ys | e2]; cbn [bind]; [discriminate |].
    intros H. injection H as ->. destruct (IH eq_refl) as (x0 & Hin & Hx).
    exists x0. split; [right; exact Hin | exact Hx].
  - intros H. injection H as ->. exists x. split; [left; reflexivity | exact E].
Qed.

(** An invariant of the loop body is an invariant of the loop, and a loop
    that raises does so in its body, from a state where the invariant
    holds. *)
Lemma foldM_invariant {A S : Type} (f : S -> A -> Res S) (I : S -> Prop)
  (l : list A) :
  (forall s x s', In x l -> I s -> f s x = Ok s' -> I s') ->
  forall s,
    I s ->
    match foldM f l s with
    | Ok s' => I s'
    | Raise e => exists s1 x, In x l /\ I s1 /\ f s1 x = Raise e
    end.
Proof.
  induction l as [| x l IH]; intros Hstep s Hs; [exact Hs |].
  rewrite foldM_cons. destruct (f s x) as [s1 | e] eqn:E; cbn [bind].
  - assert (H1 : I s1) by (apply (Hstep s x); [left; reflexivity | | ]; auto).
    specialize (IH (fun s0 x0 s' Hin => Hstep s0 x0 s' (or_intror Hin)) s1 H1).
    destruct (foldM f l s1) as [s' | e']; [exact IH |].
    destruct IH as (s2 & x2 & Hin & H2 & Hx).
    exists s2, x2. split; [right; exact Hin | split; assumption].
  - exists s, x. split; [left; reflexivity | split; assumption].
Qed.

Lemma strs_eqb_eq (a b : list string) : strs_eqb a b = true <-> a = b.
Proof.
  unfold strs_eqb. revert b.
  induction a as [| x a IH]; intros [| y b]; simpl; split; intros H;
    try reflexivity; try discriminate.
  - apply andb_true_iff in H as [Hx Hl].
    apply String.eqb_eq in Hx. apply IH in Hl. subst. reflexivity.
  - injection H as -> ->. rewrite String.eqb_refl. apply IH. reflexivity.
Qed.

Lemma list_assign_length {A : Type} (l : list A) : forall i v l',
  list_assign l i v = Ok l' -> List.length l' = List.length l.
Proof.
  induction l as [| x l IH]; intros i v l' H.
  - destruct i; discriminate H.
  - destruct i as [| i]; simpl in H.
    + injection H as <-. reflexivity.
    + destruct (list_assign l i v) as [rest |] eqn:E; cbn [bind] in H;
        [| discriminate H].
      injection H as <-. simpl. rewrite (IH _ _ _ E). reflexivity.
Qed.

Lemma list_assign_in_range {A : Type} (l : list A) : forall i v,
  (i < List.length l)%nat -> exists l', list_assign l i v = Ok l'.
Proof.
  induction l as [| x l IH]; intros i v Hi; simpl in Hi; [lia |].
  destruct i as [| i]; simpl; [eexists; reflexivity |].
  destruct (IH i v) as [l' ->]; [lia |]. eexists. reflexivity.
Qed.

Lemma list_assign_message {A : Type} (l : list A) : forall j v e,
  list_assign l j v = Raise e -> arity_message (exc_msg e) = false.
Proof.
  induction l as [| x l IH]; intros j v e H.
  - destruct j; injection H as <-; reflexivity.
  - destruct j as [| j]; simpl in H; [discriminate H |].
    destruct (list_assign l j v) as [r | e1] eqn:E; cbn [bind] in H;
      [discriminate H |].
    injection H as <-. apply (IH _ _ _ E).
Qed.

Section Shape.
Variables (gby_cols : list string) (num_metrics : nat).

Local Abbreviation shaped := (all_well_shaped gby_cols num_metrics).

Lemma dict_set_shaped key slots (rows : GbyRows) :
  shaped rows ->
  List.length key = List.length gby_cols ->
  List.length slots = num_metrics ->
  shaped (dict_set strs_eqb key slots rows).
Proof.
  unfold all_well_shaped. intros Hrows Hk Hs.
  induction rows as [| [k v] rows IH]; simpl.
  - repeat constructor; assumption.
  - pose proof (Forall_inv Hrows) as [Hk0 Hv0].
    pose proof (Forall_inv_tail Hrows) as Hrest. simpl in Hk0, Hv0.
    destruct (strs_eqb key k) eqn:E.
    + constructor; [| exact Hrest]. split; [exact Hk0 | exact Hs].
    + constructor; [split; assumption | apply IH; exact Hrest].
Qed.

Lemma dict_item_shaped key (rows : GbyRows) slots :
  shaped rows -> dict_item strs_eqb key rows = Ok slots ->
  List.length slots = num_metrics.
Proof.
  unfold all_well_shaped, dict_item. intros Hrows.
  destruct (dict_get strs_eqb key rows) as [v |] eqn:E; [| discriminate].
  intros H. injection H as <-.
  apply (dict_get_In strs_eqb strs_eqb_eq) in E.
  rewrite Forall_forall in Hrows. apply (Hrows _ E).
Qed.

Lemma group_key_length agg_result group_values key :
  group_key gby_cols agg_result group_values = Ok key ->
  List.length key = List.length gby_cols.
Proof.
  unfold group_key.
  destruct (List.length group_values <? List.length gby_cols)%nat eqn:E1;
    [discriminate |].
  destruct (List.length gby_cols <? List.length group_values)%nat eqn:E2.
  - destruct (list_item _ 0) as [first |]; cbn [bind]; [| discriminate].
    intros H. apply list_assign_length in H. rewrite H, length_skipn.
    apply Nat.ltb_lt in E2. lia.
  - intros H. injection H as <-.
    apply Nat.ltb_ge in E1, E2. lia.
Qed.

Lemma add_group_result_shaped i agg_result (rows rows' : GbyRows) gb_result :
  shaped rows ->
  add_group_result gby_cols num_metrics i agg_result rows gb_result = Ok rows' ->
  shaped rows'.
Proof.
  intros Hrows. unfold add_group_result.
  destruct (group_key gby_cols agg_result (gb_group gb_result))
    as [key |] eqn:Hkey; cbn [bind]; [| discriminate].
  pose proof (group_key_length _ _ _ Hkey) as Hlen.
  set (rows1 := if negb (dict_mem strs_eqb key rows)
                then dict_set strs_eqb key (repeat VNone num_metrics) rows
                else rows).
  assert (H1 : shaped rows1).
  { unfold rows1. destruct (negb (dict_mem strs_eqb key rows)); [| exact Hrows].
    apply dict_set_shaped; [exact Hrows | exact Hlen | apply repeat_length]. }
  destruct (dict_item strs_eqb key rows1) as [slots |] eqn:Hitem; cbn [bind];
    [| discriminate].
  destruct (list_assign slots i (gb_value gb_result)) as [slots' |] eqn:Hset;
    cbn [bind]; [| discriminate].
  intros H. injection H as <-.
  apply dict_set_shaped; [exact H1 | exact Hlen |].
  rewrite (list_assign_length _ _ _ _ Hset).
  apply (dict_item_shaped key rows1); assumption.
Qed.

Lemma add_metric_shaped aggregation_results (rows rows' : GbyRows) indexed :
  shaped rows ->
  add_metric aggregation_results gby_cols num_metrics rows indexed = Ok rows' ->
  shaped rows'.
Proof.
  intros Hrows. destruct indexed as [i agg_result]. unfold add_metric.
  destruct (agg_groupByResult agg_result) as [entries |].
  - destruct (dict_mem strs_eqb total_group_vals_key rows); [discriminate |].
    intros H.
    pose proof (foldM_invariant
                  (add_group_result gby_cols num_metrics i agg_result)
                  shaped entries
                  (fun s x s' _ Hs Hx =>
                     add_group_result_shaped i agg_result s s' x Hs Hx)
                  rows Hrows) as Hinv.
    rewrite H in Hinv. exact Hinv.
  - set (rows1 := if negb (dict_mem strs_eqb total_group_vals_key rows)
                  then dict_set strs_eqb total_group_vals_key
                         (repeat VNone num_metrics) rows
                  else rows).
    destruct (negb (List.length rows1 =? 1)%nat); [discriminate |].
    destruct (0 <? List.length gby_cols)%nat eqn:Ecols; [discriminate |].
    apply Nat.ltb_ge in Ecols.
    assert (Hlen : List.length total_group_vals_key = List.length gby_cols)
      by (simpl; lia).
    assert (H1 : shaped rows1).
    { unfold rows1.
      destruct (negb (dict_mem strs_eqb total_group_vals_key rows));
        [| exact Hrows].
      apply dict_set_shaped; [exact Hrows | exact Hlen | apply repeat_length]. }
    destruct (agg_value agg_result) as [v |]; cbn [bind]; [| discriminate].
    destruct (dict_item strs_eqb total_group_vals_key rows1) as [slots |]
      eqn:Hitem; cbn [bind]; [| discriminate].
    destruct (list_assign slots i v) as [slots' |] eqn:Hset; cbn [bind];
      [| discriminate].
    intros H. injection H as <-.
    apply dict_set_shaped; [exact H1 | exact Hlen |].
    rewrite (list_assign_length _ _ _ _ Hset).
    apply (dict_item_shaped total_group_vals_key rows1); assumption.
Qed.

Lemma merge_metrics_shaped aggregation_results (rows : GbyRows) :
  merge_metrics aggregation_results gby_cols num_metrics = Ok rows ->
  shaped rows.
Proof.
  unfold merge_metrics. intros H.
  pose proof (foldM_invariant
                (add_metric aggregation_results gby_cols num_metrics)
                shaped (enumerate aggregation_results)
                (fun s x s' _ Hs Hx =>
                   add_metric_shaped aggregation_results s s' x Hs Hx)
                [] (Forall_nil _)) as Hinv.
  rewrite H in Hinv. exact Hinv.
Qed.

(** The messages the merge can raise are not those of the arity checks. *)
Lemma add_group_result_message i agg_result (rows : GbyRows) gb_result e :
  add_group_result gby_cols num_metrics i agg_result rows gb_result = Raise e ->
  arity_message (exc_msg e) = false.
Proof.
  unfold add_group_result, group_key, list_item, dict_item.
  destruct (List.length (gb_group gb_result) <? List.length gby_cols)%nat;
    cbn [bind].
  { intros H. injection H as <-. reflexivity. }
  assert (Htail : forall key,
            (let gby_rows :=
               if negb (dict_mem strs_eqb key rows)
               then dict_set strs_eqb key (repeat VNone num_metrics) rows
               else rows in
             slots <-
               match dict_get strs_eqb key gby_rows with
               | Some v => Ok v
               | None => raise KeyError (MsgBuiltin "key")
               end ;;
             slots' <- list_assign slots i (gb_value gb_result) ;;
             Ok (dict_set strs_eqb key slots' gby_rows)) = Raise e ->
            arity_message (exc_msg e) = false).
  { intros key. cbv zeta.
    destruct (dict_get strs_eqb key _) as [slots |]; cbn [bind].
    - destruct (list_assign slots i (gb_value gb_result)) as [s' | e1] eqn:E;
        cbn [bind]; [discriminate |].
      intros H. injection H as <-. apply (list_assign_message _ _ _ _ E).
    - intros H. injection H as <-. reflexivity. }
  destruct (List.length gby_cols <? List.length (gb_group gb_result))%nat.
  - destruct (nth_error _ 0) as [first |]; cbn [bind].
    + destruct (list_assign _ 0 _) as [key | e1] eqn:E; cbn [bind].
      * apply Htail.
      * intros H. injection H as <-. apply (list_assign_message _ _ _ _ E).
    + intros H. injection H as <-. reflexivity.
  - cbn [bind]. apply Htail.
Qed.

Lemma add_metric_message aggregation_results (rows : GbyRows) indexed e :
  add_metric aggregation_results gby_cols num_metrics rows indexed = Raise e ->
  arity_message (exc_msg e) = false.
Proof.
  destruct indexed as [i agg_result]. unfold add_metric, dict_item.
  destruct (agg_groupByResult agg_result) as [entries |].
  - destruct (dict_mem strs_eqb total_group_vals_key rows).
    { intros H. injection H as <-. reflexivity. }
    intros H.
    pose proof (foldM_invariant
                  (add_group_result gby_cols num_metrics i agg_result)
                  (fun _ => True) entries (fun _ _ _ _ _ _ => I) rows I)
      as Hinv.
    rewrite H in Hinv. destruct Hinv as (s1 & x & _ & _ & Hx).
    apply (add_group_result_message _ _ _ _ _ Hx).
  - match goal with
    | |- context [negb (List.length ?d =? 1)%nat] => set (rows1 := d)
    end.
    destruct (negb (List.length rows1 =? 1)%nat).
    { intros H. injection H as <-. reflexivity. }
    destruct (0 <? List.length gby_cols)%nat.
    { intros H. injection H as <-. reflexivity. }
    destruct (agg_value agg_result) as [v |]; cbn [bind].
    2: { intros H. injection H as <-. reflexivity. }
    destruct (dict_get strs_eqb total_group_vals_key rows1) as [slots |];
      cbn [bind].
    2: { intros H. injection H as <-. reflexivity. }
    destruct (list_assign slots i v) as [s' | e1] eqn:E; cbn [bind];
      [discriminate |].
    intros H. injection H as <-. apply (list_assign_message _ _ _ _ E).
Qed.

Lemma merge_metrics_message aggregation_results e :
  merge_metrics aggregation_results gby_cols num_metrics = Raise e ->
  arity_message (exc_msg e) = false.
Proof.
  unfold merge_metrics. intros H.
  pose proof (foldM_invariant
                (add_metric aggregation_results gby_cols num_metrics)
                (fun _ => True) (enumerate aggregation_results)
                (fun _ _ _ _ _ _ => I) [] I) as Hinv.
  rewrite H in Hinv. destruct Hinv as (s1 & x & _ & _ & Hx).
  apply (add_metric_message _ _ _ _ Hx).
Qed.

(** The merge keeps the group keys different from one another. *)
Lemma add_group_result_keys i agg_result (rows rows' : GbyRows) gb_result :
  NoDup (map fst rows) ->
  add_group_result gby_cols num_metrics i agg_result rows gb_result = Ok rows' ->
  NoDup (map fst rows').
Proof.
  intros Hnd. unfold add_group_result.
  destruct (group_key gby_cols agg_result (gb_group gb_result)) as [key |];
    cbn [bind]; [| discriminate].
  match goal with
  | |- context [dict_item strs_eqb key ?d] => set (rows1 := d)
  end.
  assert (H1 : NoDup (map fst rows1)).
  { unfold rows1. destruct (negb (dict_mem strs_eqb key rows)); [| exact Hnd].
    apply (dict_set_NoDup strs_eqb strs_eqb_eq). exact Hnd. }
  destruct (dict_item strs_eqb key rows1) as [slots |]; cbn [bind];
    [| discriminate].
  destruct (list_assign slots i (gb_value gb_result)) as [slots' |];
    cbn [bind]; [| discriminate].
  intros H. injection H as <-.
  apply (dict_set_NoDup strs_eqb strs_eqb_eq). exact H1.
Qed.

Lemma add_metric_keys aggregation_results (rows rows' : GbyRows) indexed :
  NoDup (map fst rows) ->
  add_metric aggregation_results gby_cols num_metrics rows indexed = Ok rows' ->
  NoDup (map fst rows').
Proof.
  intros Hnd. destruct indexed as [i agg_result]. unfold add_metric.
  destruct (agg_groupByResult agg_result) as [entries |].
  - destruct (dict_mem strs_eqb total_group_vals_key rows); [discriminate |].
    intros H.
    pose proof (foldM_invariant
                  (add_group_result gby_cols num_metrics i agg_result)
                  (fun rows0 : GbyRows => NoDup (map fst rows0)) entries
                  (fun s x s' _ Hs Hx =>
                     add_group_result_keys i agg_result s s' x Hs Hx)
                  rows Hnd) as Hinv.
    rewrite H in Hinv. exact Hinv.
  - match goal with
    | |- context [negb (List.length ?d =? 1)%nat] => set (rows1 := d)
    end.
    assert (H1 : NoDup (map fst rows1)).
    { unfold rows1.
      destruct (negb (dict_mem strs_eqb total_group_vals_key rows));
        [| exact Hnd].
      apply (dict_set_NoDup strs_eqb strs_eqb_eq). exact Hnd. }
    destruct (negb (List.length rows1 =? 1)%nat); [discriminate |].
    destruct (0 <? List.length gby_cols)%nat; [discriminate |].
    destruct (agg_value agg_result) as [v |]; cbn [bind]; [| discriminate].
    destruct (dict_item strs_eqb total_group_vals_key rows1) as [slots |];
      cbn [bind]; [| discriminate].
    destruct (list_assign slots i v) as [slots' |]; cbn [bind];
      [| discriminate].
    intros H. injection H as <-.
    apply (dict_set_NoDup strs_eqb strs_eqb_eq). exact H1.
Qed.

Lemma merge_metrics_keys aggregation_results (rows : GbyRows) :
  merge_metrics aggregation_results gby_cols num_metrics = Ok rows ->
  NoDup (map fst rows).
Proof.
  unfold merge_metrics. intros H.
  pose proof (foldM_invariant
                (add_metric aggregation_results gby_cols num_metrics)
                (fun rows0 : GbyRows => NoDup (map fst rows0))
                (enumerate aggregation_results)
                (fun s x s' _ Hs Hx =>
                   add_metric_keys aggregation_results s s' x Hs Hx)
                [] (NoDup_nil _)) as Hinv.
  rewrite H in Hinv. exact Hinv.
Qed.
End Shape.

Lemma group_by_loop_message aggregation_results : forall acc e,
  group_by_loop acc aggregation_results = Raise e ->
  arity_message (exc_msg e) = false.
Proof.
  induction aggregation_results as [| metric rest IH]; intros acc e H;
    simpl in H; [discriminate H |].
  destruct (negb (is_empty acc)
            && negb (strs_eqb acc (get_or (agg_groupByColumns metric) []))).
  - injection H as <-. reflexivity.
  - destruct (is_empty acc); apply (IH _ _ H).
Qed.

Lemma make_row_shaped_message gby_cols metric_names item e :
  well_shaped gby_cols (List.length metric_names) item ->
  make_row gby_cols metric_names item = Raise e ->
  arity_message (exc_msg e) = false.
Proof.
  destruct item as [group_vals metric_vals]. intros [Hg Hm]. simpl in Hg, Hm.
  rewrite (make_row_unfold _ _ _ _ Hg Hm). cbv zeta.
  destruct (negb _); [| discriminate].
  intros H. injection H as <-. reflexivity.
Qed.

(** X9: every row the merge produces has one group value per group-by
    column and one slot per metric, and no two rows share a group key; so
    the two arity checks made on each merged row can never fail: no
    aggregation response is rejected with either of their messages. *)
Theorem merged_rows_well_shaped (aggregation_results : list Metric) :
  (forall gby_cols num_metrics gby_rows,
     merge_metrics aggregation_results gby_cols num_metrics = Ok gby_rows ->
     Forall (well_shaped gby_cols num_metrics) gby_rows
     /\ NoDup (map fst gby_rows))
  /\ (forall e,
        aggregation_rows aggregation_results = Raise e ->
        arity_message (exc_msg e) = false).
Proof.
  split.
  - intros gby_cols num_metrics gby_rows H. split.
    + apply (merge_metrics_shaped _ _ _ _ H).
    + apply (merge_metrics_keys _ _ _ _ H).
  - intros e. unfold aggregation_rows, get_group_by_column_names.
    destruct (group_by_loop [] aggregation_results) as [gby_cols | e0] eqn:Ec;
      cbn [bind].
    2: { intros H. injection H as <-. apply (group_by_loop_message _ _ _ Ec). }
    destruct (mapM metric_function aggregation_results)
      as [metric_names | e0] eqn:En; cbn [bind].
    2: { intros H. injection H as <-.
         apply mapM_raise_inv in En as (m & _ & Hm).
         unfold metric_function in Hm.
         destruct (agg_function m); [discriminate Hm |].
         injection Hm as <-. reflexivity. }
    destruct (merge_metrics aggregation_results gby_cols
                (List.length metric_names)) as [gby_rows | e0] eqn:Em;
      cbn [bind].
    2: { intros H. injection H as <-.
         apply (merge_metrics_message _ _ _ _ Em). }
    intros H. apply mapM_raise_inv in H as (item & Hin & Hitem).
    apply (make_row_shaped_message gby_cols metric_names item); [| exact Hitem].
    pose proof (merge_metrics_shaped _ _ _ _ Em) as Hshape.
    unfold all_well_shaped in Hshape. rewrite Forall_forall in Hshape.
    apply Hshape. exact Hin.
Qed.

Lemma merged_rows_well_shaped_witness :
  Forall (well_shaped ["city"] 1) [(["NYC"], [VInt 5]); (["SF"], [VInt 2])]
  /\ NoDup (map fst [(["NYC"], [VInt 5]); (["SF"], [VInt 2])]).
Proof.
  apply (proj1 (merged_rows_well_shaped count_by_city) ["city"] 1%nat
           [(["NYC"], [VInt 5]); (["SF"], [VInt 2])] eq_refl).
Defined.

Lemma NoDup_strings_dec (l : list string) : NoDup l \/ ~ NoDup l.
Proof.
  induction l as [| x l [IH | IH]].
  - left. constructor.
  - destruct (in_dec string_dec x l) as [Hin | Hnotin].
    + right. intros H. inversion H. contradiction.
    + left. constructor; assumption.
  - right. intros H. inversion H. contradiction.
Qed.

Lemma make_row_ok_keys gby_cols metric_names item row :
  make_row gby_cols metric_names item = Ok row ->
  map fst row = (gby_cols ++ metric_names)%list
  /\ NoDup (gby_cols ++ metric_names).
Proof.
  destruct item as [group_vals metric_vals]. intros H.
  assert (Hg : List.length group_vals = List.length gby_cols).
  { unfold make_row in H.
    destruct (Nat.eqb_spec (List.length group_vals) (List.length gby_cols));
      [assumption | discriminate H]. }
  assert (Hm : List.length metric_vals = List.length metric_names).
  { unfold make_row in H. rewrite Hg, Nat.eqb_refl in H. cbn [negb] in H.
    destruct (Nat.eqb_spec (List.length metric_vals)
                (List.length metric_names)); [assumption | discriminate H]. }
  assert (Hlen : List.length (gby_cols ++ metric_names)
                 = List.length (map VStr group_vals ++ metric_vals)).
  { rewrite !length_app, length_map. lia. }
  rewrite (make_row_unfold _ _ _ _ Hg Hm) in H. cbv zeta in H.
  destruct (NoDup_strings_dec (gby_cols ++ metric_names)) as [Hnd | Hdup].
  - rewrite (dict_update_distinct String.eqb string_eqb_eq) in H
      by (simpl; rewrite (map_fst_combine _ _ Hlen); exact Hnd).
    simpl app in H. destruct (negb _); [discriminate H |].
    injection H as <-. split; [apply map_fst_combine; exact Hlen | exact Hnd].
  - pose proof (dict_update_collision String.eqb string_eqb_eq
                  (combine (gby_cols ++ metric_names)
                     (map VStr group_vals ++ metric_vals)) []) as Hlt.
    simpl in Hlt. rewrite (map_fst_combine _ _ Hlen) in Hlt.
    specialize (Hlt (NoDup_nil _) Hdup).
    rewrite length_combine, <- Hlen, Nat.min_id, length_app in Hlt.
    match type of H with
    | context [Nat.eqb ?a ?b] => destruct (Nat.eqb_spec a b) as [E | E]
    end; [lia | discriminate H].
Qed.

Lemma make_Row_same_keys (rows : list Row) (fields : list string) :
  Forall (fun row => map fst row = fields) rows ->
  mapM (make_Row fields) rows = Ok (map (map snd) rows).
Proof.
  induction rows as [| row rows IH]; intros Hall; [reflexivity |].
  pose proof (Forall_inv Hall) as Hrow.
  pose proof (Forall_inv_tail Hall) as Hrest. simpl.
  unfold make_Row at 1.
  assert (Hlen : List.length row = List.length fields)
    by (rewrite <- Hrow; symmetry; apply length_map).
  rewrite Hlen, Nat.eqb_refl. cbn [bind]. rewrite (IH Hrest). reflexivity.
Qed.

(** X10: the rows of an aggregation response all list the same columns, the
    group-by columns followed by the metric names, and these names are all
    different; hence turning the rows into tuples never fails for an
    aggregation response. *)
Theorem aggregation_rows_share_columns (aggregation_results : list Metric)
  (rows : list Row) :
  aggregation_rows aggregation_results = Ok rows ->
  exists gby_cols metric_names,
    get_group_by_column_names aggregation_results = Ok gby_cols
    /\ mapM metric_function aggregation_results = Ok metric_names
    /\ Forall (fun row => map fst row = (gby_cols ++ metric_names)%list) rows
    /\ (rows <> [] -> NoDup (gby_cols ++ metric_names))
    /\ mapM (make_Row (map fst (hd [] rows))) rows = Ok (map (map snd) rows).
Proof.
  unfold aggregation_rows.
  destruct (get_group_by_column_names aggregation_results)
    as [gby_cols |]; cbn [bind]; [| discriminate].
  destruct (mapM metric_function aggregation_results)
    as [metric_names |]; cbn [bind]; [| discriminate].
  destruct (merge_metrics aggregation_results gby_cols
              (List.length metric_names)) as [gby_rows |]; cbn [bind];
    [| discriminate].
  intros H. exists gby_cols, metric_names.
  split; [reflexivity | split; [reflexivity |]].
  apply mapM_ok_inv in H.
  assert (Hkeys : Forall (fun row => map fst row
                                     = (gby_cols ++ metric_names)%list
                                     /\ NoDup (gby_cols ++ metric_names)) rows).
  { induction H as [| item row items rows' Hrow _ IH]; constructor.
    - apply (make_row_ok_keys _ _ _ _ Hrow).
    - exact IH. }
  assert (Hcols : Forall (fun row => map fst row
                                     = (gby_cols ++ metric_names)%list) rows).
  { revert Hkeys. apply Forall_impl. intros row [Hk _]. exact Hk. }
  split; [exact Hcols | split].
  - intros Hne. destruct rows as [| row rest]; [contradiction Hne; reflexivity |].
    apply (Forall_inv Hkeys).
  - destruct rows as [| row rest]; [reflexivity |].
    simpl hd. rewrite (Forall_inv Hcols).
    apply make_Row_same_keys. exact Hcols.
Qed.

Lemma aggregation_rows_share_columns_witness :
  exists gby_cols metric_names,
    get_group_by_column_names count_by_city = Ok gby_cols
    /\ mapM metric_function count_by_city = Ok metric_names
    /\ Forall (fun row => map fst row = (gby_cols ++ metric_names)%list)
         [[("city", VStr "NYC"); ("count", VInt 5)];
          [("city", VStr "SF"); ("count", VInt 2)]]
    /\ ([[("city", VStr "NYC"); ("count", VInt 5)];
         [("city", VStr "SF"); ("count", VInt 2)]] <> [] ->
        NoDup (gby_cols ++ metric_names))
    /\ mapM (make_Row
               (map fst
                  (hd [] [[("city", VStr "NYC"); ("count", VInt 5)];
                          [("city", VStr "SF"); ("count", VInt 2)]])))
         [[("city", VStr "NYC"); ("count", VInt 5)];
          [("city", VStr "SF"); ("count", VInt 2)]]
       = Ok (map (map snd)
               [[("city", VStr "NYC"); ("count", VInt 5)];
                [("city", VStr "SF"); ("count", VInt 2)]]).
Proof.
  apply (aggregation_rows_share_columns count_by_city
           [[("city", VStr "NYC"); ("count", VInt 5)];
            [("city", VStr "SF"); ("count", VInt 2)]] eq_refl).
Defined.

(** ** The group-by columns of a response *)

Lemma group_by_loop_declared aggregation_results : forall acc gby_cols,
  acc <> [] ->
  group_by_loop acc aggregation_results = Ok gby_cols
  <-> gby_cols = acc
      /\ Forall (fun m => declared_columns m = acc) aggregation_results.
Proof.
  induction aggregation_results as [| metric rest IH]; intros acc gby_cols Hne.
  - simpl. split.
    + intros H. injection H as <-. split; [reflexivity | constructor].
    + intros [-> _]. reflexivity.
  - simpl. fold (declared_columns metric).
    destruct acc as [| a acc']; [contradiction Hne; reflexivity |].
    cbn [is_empty negb andb].
    destruct (strs_eqb (a :: acc') (declared_columns metric)) eqn:E;
      cbn [negb].
    + apply strs_eqb_eq in E. rewrite (IH _ _ Hne). split.
      * intros [-> Hall]. split; [reflexivity |].
        constructor; [symmetry; exact E | exact Hall].
      * intros [-> Hall]. split; [reflexivity | exact (Forall_inv_tail Hall)].
    + split; [discriminate |].
      intros [_ Hall]. pose proof (Forall_inv Hall) as Hm. simpl in Hm.
      rewrite Hm, strs_eqb_refl in E. discriminate E.
Qed.

(** X11: [get_group_by_column_names] returns a column list exactly when the
    metrics split into a first part that declares no group-by column and a
    remaining part in which every metric declares that same list, in the
    same order; so a metric without group-by columns is accepted before the
    first metric that declares some, and rejected after it. *)
Theorem group_by_column_names_agree (aggregation_results : list Metric)
  (gby_cols : list string) :
  get_group_by_column_names aggregation_results = Ok gby_cols
  <-> exists before rest,
        aggregation_results = (before ++ rest)%list
        /\ Forall (fun m => declared_columns m = []) before
        /\ Forall (fun m => declared_columns m = gby_cols) rest
        /\ (rest = [] -> gby_cols = []).
Proof.
  unfold get_group_by_column_names.
  induction aggregation_results as [| metric ms IH].
  - simpl. split.
    + intros H. injection H as <-. exists [], [].
      repeat split; constructor.
    + intros (before & rest & Heq & _ & _ & Hrest).
      symmetry in Heq. apply app_eq_nil in Heq as [_ ->].
      rewrite (Hrest eq_refl). reflexivity.
  - simpl. fold (declared_columns metric).
    destruct (declared_columns metric) as [| c cs] eqn:Em.
    + rewrite IH. split.
      * intros (before & rest & -> & Hb & Hr & Hrest).
        exists (metric :: before), rest.
        repeat split; try assumption. constructor; assumption.
      * intros (before & rest & Heq & Hb & Hr & Hrest).
        destruct before as [| m0 before].
        -- simpl in Heq. subst rest.
           pose proof (Forall_inv Hr) as Hm. simpl in Hm.
           rewrite Em in Hm. subst gby_cols.
           exists ms, []. rewrite app_nil_r.
           repeat split; [exact (Forall_inv_tail Hr) | constructor].
        -- injection Heq as <- ->. exists before, rest.
           repeat split; try assumption. exact (Forall_inv_tail Hb).
    + rewrite group_by_loop_declared by discriminate. split.
      * intros [-> Hall]. exists [], (metric :: ms).
        repeat split; [constructor | | discriminate].
        constructor; [exact Em | exact Hall].
      * intros (before & rest & Heq & Hb & Hr & _).
        destruct before as [| m0 before].
        -- simpl in Heq. subst rest.
           pose proof (Forall_inv Hr) as Hm. simpl in Hm.
           rewrite Em in Hm. subst gby_cols.
           split; [reflexivity | exact (Forall_inv_tail Hr)].
        -- injection Heq as <- _. pose proof (Forall_inv Hb) as Hm.
           simpl in Hm. rewrite Em in Hm. discriminate Hm.
Qed.

(** ** Global aggregations *)

Lemma list_assign_middle {A : Type} (done : list A) : forall x tl v,
  list_assign (done ++ x :: tl) (List.length done) v
  = Ok (done ++ v :: tl)%list.
Proof.
  induction done as [| d done IH]; intros x tl v; simpl; [reflexivity |].
  rewrite IH. reflexivity.
Qed.

Lemma combine_fst_snd {A B : Type} (pairs : list (A * B)) :
  combine (map fst pairs) (map snd pairs) = pairs.
Proof.
  induction pairs as [| [a b] pairs IH]; simpl; [reflexivity |].
  rewrite IH. reflexivity.
Qed.

Lemma group_by_loop_flat pairs :
  group_by_loop [] (map flat_metric pairs) = Ok [].
Proof. induction pairs as [| p pairs IH]; simpl; [reflexivity | exact IH]. Qed.

Lemma metric_function_flat pairs :
  mapM metric_function (map flat_metric pairs) = Ok (map fst pairs).
Proof.
  induction pairs as [| p pairs IH]; simpl; [reflexivity |].
  rewrite IH. reflexivity.
Qed.

(** The slots of the total row fill up from the left, one metric at a time. *)
Lemma merge_flat aggregation_results rest : forall done,
  foldM (add_metric aggregation_results []
           (List.length done + List.length rest))
    (combine (seq (List.length done) (List.length rest))
       (map flat_metric rest))
    [(total_group_vals_key,
      (done ++ repeat VNone (List.length rest))%list)]
  = Ok [(total_group_vals_key, (done ++ map snd rest)%list)].
Proof.
  induction rest as [| [f v] rest IH]; intros done; [reflexivity |].
  cbn [List.length seq map combine]. rewrite foldM_cons.
  unfold add_metric at 1. cbn [flat_metric agg_groupByResult agg_value fst snd].
  cbn [dict_mem dict_get total_group_vals_key strs_eqb list_eqb negb
       List.length Nat.eqb Nat.ltb Nat.leb dict_item bind repeat].
  rewrite list_assign_middle. cbn [bind dict_set strs_eqb list_eqb].
  specialize (IH (done ++ [v])%list).
  rewrite length_app in IH. cbn [List.length] in IH.
  rewrite <- !app_assoc in IH. cbn [app] in IH.
  replace (List.length done + S (List.length rest))%nat
    with (List.length done + 1 + List.length rest)%nat by lia.
  replace (S (List.length done)) with (List.length done + 1)%nat by lia.
  exact IH.
Qed.

(** X12: a response made only of flat metrics, without group-by columns and
    with function names that are all different, is decoded into exactly one
    row that lists every function with its value, in the order of the
    metrics. *)
Theorem global_aggregation_one_row (pairs : list (string * Value)) :
  pairs <> [] ->
  NoDup (map fst pairs) ->
  aggregation_rows (map flat_metric pairs) = Ok [pairs].
Proof.
  intros Hne Hnd. unfold aggregation_rows, get_group_by_column_names.
  rewrite group_by_loop_flat, metric_function_flat. cbn [bind].
  rewrite length_map.
  assert (Hmerge : merge_metrics (map flat_metric pairs) []
                     (List.length pairs)
                   = Ok [(total_group_vals_key, map snd pairs)]).
  { unfold merge_metrics, enumerate. rewrite length_map.
    destruct pairs as [| [f v] rest]; [contradiction Hne; reflexivity |].
    cbn [List.length seq map combine]. rewrite foldM_cons.
    unfold add_metric at 1.
    cbn [flat_metric agg_groupByResult agg_value fst snd].
    cbn [dict_mem dict_get total_group_vals_key negb dict_set List.length
         Nat.eqb Nat.ltb Nat.leb dict_item strs_eqb list_eqb bind repeat
         list_assign].
    apply (merge_flat (flat_metric (f, v) :: map flat_metric rest) rest [v]). }
  rewrite Hmerge. cbn [mapM bind]. unfold total_group_vals_key.
  rewrite (make_row_unfold [] (map fst pairs) [] (map snd pairs));
    [| reflexivity | rewrite !length_map; reflexivity].
  cbv zeta. cbn [app map List.length Nat.add].
  rewrite combine_fst_snd.
  rewrite (dict_update_distinct String.eqb string_eqb_eq) by exact Hnd.
  cbn [app]. rewrite length_map, Nat.eqb_refl. reflexivity.
Qed.

Lemma global_aggregation_one_row_witness :
  aggregation_rows (map flat_metric [("count", VInt 42); ("sum", VInt 7)])
  = Ok [[("count", VInt 42); ("sum", VInt 7)]].
Proof.
  apply (global_aggregation_one_row [("count", VInt 42); ("sum", VInt 7)]).
  - discriminate.
  - distinct_strings.
Defined.

(** ** Escaping sequences *)

Lemma str_join_texts (sep : string) (texts : list string) :
  str_join sep (map (fun s => Ok (VStr s)) texts) = Ok (String.concat sep texts).
Proof.
  induction texts as [| s texts IH]; [reflexivity |].
  cbn [map str_join bind isinstance existsb instance_of orb str_of].
  destruct texts as [| s' texts]; [reflexivity |].
  cbn [map] in IH |- *. rewrite IH. reflexivity.
Qed.

(** A join raises [TypeError] when every exception among its items is a
    [TypeError] and one item is not a text. *)
Lemma str_join_raises (sep : string) (items : list (Res Value)) :
  (forall e, In (Raise e) items -> exc_class e = TypeError) ->
  (exists v, In (Ok v) items /\ isinstance v [c_str] = false) ->
  exists e, str_join sep items = Raise e /\ exc_class e = TypeError.
Proof.
  induction items as [| item items IH]; intros Hraise (v & Hin & Hv).
  - destruct Hin.
  - destruct item as [v0 | e0].
    + cbn [str_join bind]. destruct (isinstance v0 [c_str]) eqn:E0.
      * destruct Hin as [Heq | Hin]; [injection Heq as ->; congruence |].
        destruct IH as (e & He & Hc).
        -- intros e He. apply Hraise. right. exact He.
        -- exists v. split; assumption.
        -- destruct items as [| i1 items]; [destruct Hin |].
           rewrite He. cbn [bind]. exists e. split; [reflexivity | exact Hc].
      * eexists. split; reflexivity.
    + cbn [str_join bind]. exists e0. split; [reflexivity |].
      apply Hraise. left. reflexivity.
Qed.

Lemma str_join_raise_inv (sep : string) (items : list (Res Value)) e :
  str_join sep items = Raise e ->
  exc_class e = TypeError \/ In (Raise e) items.
Proof.
  induction items as [| item items IH]; [discriminate |].
  destruct item as [v0 | e0]; cbn [str_join bind].
  - destruct (isinstance v0 [c_str]).
    + destruct items as [| i1 items]; [discriminate |].
      destruct (str_join sep (i1 :: items)) as [tail | e1]; cbn [bind];
        [discriminate |].
      intros H. injection H as ->.
      destruct (IH eq_refl) as [Hc | Hin]; [left; exact Hc | right; right].
      exact Hin.
    + intros H. injection H as <-. left. reflexivity.
  - intros H. injection H as ->. right. left. reflexivity.
Qed.

(** Whatever [escape] raises is a [TypeError]. *)
Lemma escape_raises_TypeError :
  forall value e, escape value = Raise e -> exc_class e = TypeError.
Proof.
  fix IH 1. intros value e.
  destruct value as [| b | n | x | s | xs | xs | items];
    try (simpl; discriminate).
  - rewrite escape_str. discriminate.
  - change (escape (VList xs))
      with (s <- str_join ", " (map escape xs) ;; Ok (VStr s)).
    destruct (str_join ", " (map escape xs)) as [s | e0] eqn:E; cbn [bind];
      [discriminate |].
    intros H. injection H as ->.
    apply str_join_raise_inv in E as [Hc | Hin]; [exact Hc |].
    clear -IH Hin. induction xs as [| x xs IHxs]; [destruct Hin |].
    destruct Hin as [Hx | Hin]; [apply (IH x e Hx) | apply IHxs; exact Hin].
  - change (escape (VTuple xs))
      with (s <- str_join ", " (map escape xs) ;; Ok (VStr s)).
    destruct (str_join ", " (map escape xs)) as [s | e0] eqn:E; cbn [bind];
      [discriminate |].
    intros H. injection H as ->.
    apply str_join_raise_inv in E as [Hc | Hin]; [exact Hc |].
    clear -IH Hin. induction xs as [| x xs IHxs]; [destruct Hin |].
    destruct Hin as [Hx | Hin]; [apply (IH x e Hx) | apply IHxs; exact Hin].
Qed.

Lemma escape_not_text value :
  isinstance value [c_str; c_list; c_tuple] = false ->
  exists v, escape value = Ok v /\ isinstance v [c_str] = false.
Proof.
  destruct value as [| b | n | x | s | xs | xs | items]; simpl;
    try discriminate; intros _; eexists; split; reflexivity.
Qed.

(** X13: a list or a tuple of texts is rendered as the escaped texts joined
    by a comma and a space; a list or a tuple that holds a number, a
    boolean or [None] cannot be rendered: [escape] returns such an element
    as it is, and joining it raises [TypeError]. *)
Theorem escape_sequence (texts : list string) (xs : list Value) :
  escape (VList (map VStr texts))
  = Ok (VStr (String.concat ", " (map escaped_text texts)))
  /\ escape (VTuple (map VStr texts))
     = Ok (VStr (String.concat ", " (map escaped_text texts)))
  /\ ((exists x, In x xs /\ isinstance x [c_str; c_list; c_tuple] = false) ->
      (exists e, escape (VList xs) = Raise e /\ exc_class e = TypeError)
      /\ (exists e, escape (VTuple xs) = Raise e /\ exc_class e = TypeError)).
Proof.
  assert (Htexts : str_join ", " (map escape (map VStr texts))
                   = Ok (String.concat ", " (map escaped_text texts))).
  { rewrite map_map.
    rewrite (map_ext (fun s => escape (VStr s))
               (fun s => Ok (VStr (escaped_text s)))) by apply escape_str.
    rewrite <- (map_map escaped_text (fun s => Ok (VStr s))).
    apply str_join_texts. }
  split; [| split].
  - change (escape (VList (map VStr texts)))
      with (s <- str_join ", " (map escape (map VStr texts)) ;; Ok (VStr s)).
    rewrite Htexts. reflexivity.
  - change (escape (VTuple (map VStr texts)))
      with (s <- str_join ", " (map escape (map VStr texts)) ;; Ok (VStr s)).
    rewrite Htexts. reflexivity.
  - intros (x & Hin & Hx).
    assert (Hjoin : exists e, str_join ", " (map escape xs) = Raise e
                              /\ exc_class e = TypeError).
    { apply str_join_raises.
      - intros e He. apply in_map_iff in He as (y & Hy & _).
        apply (escape_raises_TypeError y e Hy).
      - destruct (escape_not_text x Hx) as (v & Hv & Hnot).
        exists v. split; [| exact Hnot].
        rewrite <- Hv. apply in_map. exact Hin. }
    destruct Hjoin as (e & He & Hc). split; exists e; split; try exact Hc.
    + change (escape (VList xs))
        with (s <- str_join ", " (map escape xs) ;; Ok (VStr s)).
      rewrite He. reflexivity.
    + change (escape (VTuple xs))
        with (s <- str_join ", " (map escape xs) ;; Ok (VStr s)).
      rewrite He. reflexivity.
Qed.

Lemma escape_sequence_witness :
  (exists e, escape (VList [VInt 1; VInt 2]) = Raise e
             /\ exc_class e = TypeError)
  /\ (exists e, escape (VTuple [VInt 1; VInt 2]) = Raise e
                /\ exc_class e = TypeError).
Proof.
  apply (proj2 (proj2 (escape_sequence [] [VInt 1; VInt 2]))).
  exists (VInt 1). split; [left; reflexivity | reflexivity].
Defined.

(** ** The extra request headers *)

Lemma split_nonempty sep s : str_split sep s <> [].
Proof.
  destruct s as [| c rest]; simpl; [discriminate |].
  destruct (Ascii.eqb c sep); [discriminate |].
  destruct (str_split sep rest); discriminate.
Qed.

Lemma split_length sep s : List.length (str_split sep s) = S (count_char sep s).
Proof.
  induction s as [| c rest IH]; [reflexivity |].
  simpl. destruct (Ascii.eqb c sep); simpl; [rewrite IH; reflexivity |].
  destruct (str_split sep rest) as [| piece pieces] eqn:E;
    [contradiction (split_nonempty sep rest E) |].
  simpl in *. exact IH.
Qed.

Lemma split_free sep s : count_char sep s = O -> str_split sep s = [s].
Proof.
  induction s as [| c rest IH]; [reflexivity |].
  simpl. destruct (Ascii.eqb c sep); simpl; [discriminate |].
  intros H. rewrite (IH H). reflexivity.
Qed.

Lemma split_at sep a b :
  count_char sep a = O ->
  str_split sep (a ++ String sep b) = a :: str_split sep b.
Proof.
  induction a as [| c a IH]; simpl.
  - intros _. rewrite Ascii.eqb_refl. reflexivity.
  - destruct (Ascii.eqb c sep); simpl; [discriminate |].
    intros H. rewrite (IH H). reflexivity.
Qed.

Lemma count_char_app c a b :
  count_char c (a ++ b) = (count_char c a + count_char c b)%nat.
Proof.
  induction a as [| c' a IH]; [reflexivity |].
  simpl. rewrite IH. lia.
Qed.

Lemma split_header k v :
  count_char "="%char k = O -> count_char "="%char v = O ->
  str_split "="%char (render_header (k, v)) = [k; v].
Proof.
  intros Hk Hv. unfold render_header. simpl fst. simpl snd.
  rewrite (split_at _ _ _ Hk), (split_free _ _ Hv). reflexivity.
Qed.

Lemma render_header_no_comma pair :
  plain (fst pair) -> plain (snd pair) ->
  count_char ","%char (render_header pair) = O.
Proof.
  intros [Hk _] [Hv _]. unfold render_header.
  rewrite count_char_app. simpl. rewrite Hk, Hv. reflexivity.
Qed.

Lemma split_rendered pair pairs :
  plain (fst pair) -> plain (snd pair) ->
  str_split ","%char (String.concat "," (map render_header (pair :: pairs)))
  = render_header pair
    :: match pairs with
       | [] => []
       | _ => str_split ","%char (String.concat "," (map render_header pairs))
       end.
Proof.
  intros Hk Hv. pose proof (render_header_no_comma pair Hk Hv) as Hfree.
  destruct pairs as [| p pairs].
  - simpl. apply split_free. exact Hfree.
  - change (String.concat "," (map render_header (pair :: p :: pairs)))
      with (render_header pair
            ++ String ","%char
                 (String.concat "," (map render_header (p :: pairs)))).
    apply split_at. exact Hfree.
Qed.

Lemma add_headers_rendered pairs : forall acc,
  pairs <> [] ->
  Forall (fun pair => plain (fst pair) /\ plain (snd pair)) pairs ->
  add_headers
    (str_split ","%char (String.concat "," (map render_header pairs))) acc
  = Headers (dict_update String.eqb acc pairs).
Proof.
  induction pairs as [| [k v] pairs IH]; intros acc Hne Hall;
    [contradiction Hne; reflexivity |].
  pose proof (Forall_inv Hall) as [Hk Hv]. simpl in Hk, Hv.
  pose proof (Forall_inv_tail Hall) as Hrest.
  rewrite (split_rendered (k, v) pairs Hk Hv).
  cbn [add_headers].
  rewrite (split_header k v (proj2 Hk) (proj2 Hv)).
  rewrite dict_update_cons.
  destruct pairs as [| p pairs]; [reflexivity |].
  apply IH; [discriminate | exact Hrest].
Qed.

Lemma add_headers_accepts headers : forall acc,
  (exists d, add_headers headers acc = Headers d)
  <-> Forall (fun header => count_char "="%char header = 1%nat) headers.
Proof.
  induction headers as [| header headers IH]; intros acc.
  - simpl. split; [constructor | intros _; eexists; reflexivity].
  - cbn [add_headers].
    pose proof (split_length "="%char header) as Hlen.
    destruct (str_split "="%char header) as [| k [| v [| x pieces]]] eqn:E;
      simpl in Hlen.
    + discriminate Hlen.
    + split; [intros [d H]; discriminate H |].
      intros H. pose proof (Forall_inv H) as H1. simpl in H1. lia.
    + rewrite IH. split.
      * intros H. constructor; [lia | exact H].
      * intros H. exact (Forall_inv_tail H).
    + split; [intros [d H]; discriminate H |].
      intros H. pose proof (Forall_inv H) as H1. simpl in H1. lia.
Qed.

(** X14: the extra request headers are read back from a text of
    comma-separated [key=value] items: for names and values that hold
    neither a comma nor an equals sign the dictionary holds exactly the
    given pairs (a repeated name keeping its last value); the empty text
    gives no header; and a non-empty text is accepted exactly when each of
    its comma-separated items holds one equals sign, so that a value with an
    equals sign in it, or a trailing comma, makes the constructor raise
    [ValueError]. *)
Theorem extra_request_headers_round_trip (pairs : list (string * string))
  (s : string) :
  parse_extra_request_headers EmptyString = Headers []
  /\ (Forall (fun pair => plain (fst pair) /\ plain (snd pair)) pairs ->
      parse_extra_request_headers
        (String.concat "," (map render_header pairs))
      = Headers (dict_update String.eqb [] pairs))
  /\ (s <> EmptyString ->
      (exists d, parse_extra_request_headers s = Headers d)
      <-> Forall (fun header => count_char "="%char header = 1%nat)
            (str_split ","%char s)).
Proof.
  split; [reflexivity | split].
  - intros Hall. destruct pairs as [| [k v] pairs]; [reflexivity |].
    unfold parse_extra_request_headers.
    assert (Hne : String.eqb
                    (String.concat "," (map render_header ((k, v) :: pairs)))
                    EmptyString = false).
    { apply String.eqb_neq. intros H.
      assert (Hc : count_char "="%char
                     (String.concat ","
                        (map render_header ((k, v) :: pairs))) = O)
        by (rewrite H; reflexivity).
      destruct pairs as [| p pairs].
      - simpl in Hc. unfold render_header in Hc.
        rewrite count_char_app in Hc. simpl in Hc. lia.
      - change (String.concat "," (map render_header ((k, v) :: p :: pairs)))
          with (render_header (k, v)
                ++ String ","%char
                     (String.concat "," (map render_header (p :: pairs))))
          in Hc.
        unfold render_header in Hc. rewrite !count_char_app in Hc.
        simpl in Hc. lia. }
    rewrite Hne. apply add_headers_rendered; [discriminate | exact Hall].
  - intros Hne. unfold parse_extra_request_headers.
    apply String.eqb_neq in Hne. rewrite Hne. apply add_headers_accepts.
Qed.

Lemma extra_request_headers_round_trip_witness :
  parse_extra_request_headers "a=1,b=2" = Headers [("a", "1"); ("b", "2")]
  /\ ~ (exists d, parse_extra_request_headers "token=abc=" = Headers d).
Proof.
  split.
  - apply (proj1 (proj2 (extra_request_headers_round_trip
                           [("a", "1"); ("b", "2")] EmptyString))).
    repeat constructor.
  - intros H.
    apply (proj1 (proj2 (proj2 (extra_request_headers_round_trip
                                  [] "token=abc="))
                    ltac:(discriminate))) in H.
    apply Forall_inv in H. discriminate H.
Defined.

(** ** [Connection.execute] *)





(** ** The exceptions list of the payload *)

(** X16: when the replica counts are in order and the status is 200, a
    payload with a non-empty ["exceptions"] list makes [execute] raise a
    database error that carries the list, leaving the cursor as it was; an
    absent or empty list passes the check. *)
Theorem execute_reports_exceptions
  (percent_format : string -> dict string Value -> Res string) operation
  (parameters : option (dict string Value)) r self query payload :
  cursor_closed self = false ->
  apply_parameters percent_format operation (get_or parameters []) = Ok query ->
  json r = Some payload ->
  counts_bad payload = false ->
  status_code r = 200 ->
  (forall entry entries,
     exceptions payload = Some (entry :: entries) ->
     Cursor_execute percent_format operation parameters r self
     = (raise DatabaseError (MsgExceptions (entry :: entries)), self))
  /\ (exceptions payload = None \/ exceptions payload = Some [] ->
      check_payload query (status_code r) payload = Ok tt).
Proof.
  intros Hopen Hq Hj Hcounts Hstatus. split.
  - intros entry entries He.
    apply execute_check_fails with (query := query) (payload := payload);
      try assumption.
    unfold check_payload. unfold counts_bad in Hcounts.
    rewrite Hcounts, Hstatus, He. reflexivity.
  - intros He. rewrite Hstatus. apply check_payload_ok; [exact Hcounts |].
    destruct He as [-> | ->]; reflexivity.
Qed.

Lemma execute_reports_exceptions_witness :
  Cursor_execute no_placeholders "q" None
    (response 200
       (mkPayload (Some 1) (Some 1) (Some [VStr "QueryExecutionError"])
          None None))
    Cursor_init
  = (raise DatabaseError (MsgExceptions [VStr "QueryExecutionError"]),
     Cursor_init).
Proof.
  apply (proj1 (execute_reports_exceptions no_placeholders "q" None
                  (response 200
                     (mkPayload (Some 1) (Some 1)
                        (Some [VStr "QueryExecutionError"]) None None))
                  Cursor_init "q"
                  (mkPayload (Some 1) (Some 1)
                     (Some [VStr "QueryExecutionError"]) None None)
                  eq_refl eq_refl eq_refl eq_refl eq_refl)
           (VStr "QueryExecutionError") [] eq_refl).
Defined.

(** ** The described columns *)

Lemma dict_mem_existsb {V : Type} name (d : dict string V) :
  dict_mem String.eqb name d = existsb (String.eqb name) (map fst d).
Proof.
  unfold dict_mem. induction d as [| [k v] d IH]; simpl; [reflexivity |].
  destruct (String.eqb name k); [reflexivity | exact IH].
Qed.

Lemma dict_set_add_name {V : Type} name (v : V) (d : dict string V) :
  map fst (dict_set String.eqb name v d) = add_name (map fst d) name.
Proof.
  rewrite dict_set_keys, dict_mem_existsb. reflexivity.
Qed.

Lemma add_name_present names name :
  existsb (String.eqb name) names = true -> add_name names name = names.
Proof. unfold add_name. intros ->. reflexivity. Qed.

Lemma add_name_idem names name :
  add_name (add_name names name) name = add_name names name.
Proof.
  destruct (existsb (String.eqb name) names) eqn:E.
  - rewrite (add_name_present names name E).
    apply add_name_present. exact E.
  - assert (H : add_name names name = (names ++ [name])%list)
      by (unfold add_name; rewrite E; reflexivity).
    rewrite H. apply add_name_present. rewrite existsb_app. simpl.
    rewrite String.eqb_refl. apply orb_true_iff. right. reflexivity.
Qed.

Lemma register_keys name st :
  map fst (fst (register name st)) = add_name (map fst (fst st)) name.
Proof.
  unfold register. rewrite dict_mem_existsb.
  destruct (existsb (String.eqb name) (map fst (fst st))) eqn:E; cbn [negb].
  - symmetry. apply add_name_present. exact E.
  - cbn [fst]. apply dict_set_add_name.
Qed.

Lemma scan_item_keys st name value st' :
  scan_item st (name, value) = Ok st' ->
  map fst (fst st') = add_name (map fst (fst st)) name.
Proof.
  rewrite scan_item_register.
  destruct (dict_item String.eqb name (fst (register name st)))
    as [current |]; cbn [bind]; [| discriminate].
  destruct (negb (is_None value)).
  - destruct (get_type value) as [new |]; cbn [bind]; [| discriminate].
    destruct current as [current |].
    + destruct (negb (Type_eqb new current)); [discriminate |].
      intros H. injection H as <-. apply register_keys.
    + intros H. injection H as <-. cbn [fst].
      rewrite dict_set_add_name, register_keys. apply add_name_idem.
  - intros H. injection H as <-. apply register_keys.
Qed.

Lemma scan_row_keys row : forall st st',
  foldM scan_item row st = Ok st' ->
  map fst (fst st') = fold_left add_name (map fst row) (map fst (fst st)).
Proof.
  induction row as [| [name value] row IH]; intros st st' H.
  - injection H as <-. reflexivity.
  - rewrite foldM_cons in H.
    destruct (scan_item st (name, value)) as [st1 |] eqn:E; cbn [bind] in H;
      [| discriminate H].
    rewrite (IH _ _ H). simpl. rewrite (scan_item_keys _ _ _ _ E).
    reflexivity.
Qed.

Lemma scan_rows_keys rows : forall items st st',
  ScanInv (seen_in items) (shown_in items) st ->
  scan_rows st rows = Ok st' ->
  map fst (fst st')
  = fold_left add_name (map fst (List.concat (scanned items rows)))
      (map fst (fst st)).
Proof.
  induction rows as [| row rows IH]; intros items st st' Hinv H.
  - injection H as <-. reflexivity.
  - simpl in H.
    destruct (foldM scan_item row st) as [st1 |] eqn:E; cbn [bind] in H;
      [| discriminate H].
    pose proof (scan_row_ok row items st st1 Hinv E) as Hinv1.
    rewrite (unknown_columns_resolved _ _ Hinv1) in H.
    simpl scanned. simpl List.concat. rewrite map_app, fold_left_app.
    rewrite <- (scan_row_keys row st st1 E).
    destruct (all_resolved (items ++ row)).
    + injection H as <-. reflexivity.
    + apply (IH _ st1); assumption.
Qed.

(** X17: when inference succeeds, the description lists the columns of the
    scanned rows, each once, in the order they are first seen; a column
    gets the type [None] exactly when it is seen in the scanned rows without
    ever showing a non-null value; and the five remaining slots of every
    descriptor are [None]. *)
Theorem description_columns (rows : list Row) (desc : list ColumnDescriptor) :
  get_description_from_rows rows = Ok desc ->
  map col_name desc = first_seen (scanned_items rows)
  /\ NoDup (map col_name desc)
  /\ (forall name,
        In (describe (name, None)) desc
        <-> seen_in (scanned_items rows) name
            /\ has_value (scanned_items rows) name = false)
  /\ Forall (fun d => display_size d = None /\ internal_size d = None
                      /\ precision d = None /\ scale d = None
                      /\ null_ok d = None) desc.
Proof.
  unfold get_description_from_rows.
  pose proof (scan_rows_result rows) as Hinv.
  destruct (scan_rows ([], 0) rows) as [st |] eqn:E; cbn [bind];
    [| discriminate].
  intros H. injection H as <-.
  assert (Hnames : map col_name (map describe (fst st)) = map fst (fst st)).
  { rewrite map_map. apply map_ext. intros entry. reflexivity. }
  destruct Hinv as (I1 & I2 & I3 & I4 & _ & I6).
  split; [| split; [| split]].
  - rewrite Hnames.
    apply (scan_rows_keys rows [] ([], 0) st ScanInv_start E).
  - rewrite Hnames. exact I1.
  - intros name. split.
    + intros Hin. apply in_map_iff in Hin as ([n o] & Hd & Hin).
      unfold describe in Hd. simpl in Hd. injection Hd as -> ->.
      apply (In_dict_get String.eqb string_eqb_eq _ _ _ I1) in Hin.
      split.
      * apply I2. rewrite Hin. discriminate.
      * destruct (has_value (scanned_items rows) name) eqn:Ev; [| reflexivity].
        apply has_value_shown in Ev as [v Hv].
        contradiction (I3 name Hin v Hv).
    + intros [Hseen Hnone].
      apply I2 in Hseen.
      destruct (dict_get String.eqb name (fst st)) as [[t |] |] eqn:Eg.
      * destruct (proj1 (I4 name t Eg)) as (v & Hv & _).
        assert (Hhas : has_value (scanned_items rows) name = true)
          by (apply has_value_shown; exists v; exact Hv).
        congruence.
      * apply (dict_get_In String.eqb string_eqb_eq) in Eg.
        apply (in_map describe) in Eg. exact Eg.
      * contradiction Hseen. reflexivity.
  - apply Forall_forall. intros d Hd.
    apply in_map_iff in Hd as (entry & <- & _). repeat split.
Qed.

Lemma description_columns_witness :
  map col_name
    [describe ("a", None); describe ("b", Some NUMBER)]
  = first_seen (scanned_items [[("a", VNone); ("b", VInt 1)]])
  /\ NoDup (map col_name [describe ("a", None); describe ("b", Some NUMBER)]).
Proof.
  destruct (description_columns [[("a", VNone); ("b", VInt 1)]]
              [describe ("a", None); describe ("b", Some NUMBER)] eq_refl)
    as (H1 & H2 & _).
  split; [exact H1 | exact H2].
Defined.

(** ** From the response to the fetched tuples *)

Lemma map_fst_combine_le {A B : Type} (l1 : list A) : forall l2 : list B,
  (List.length l1 <= List.length l2)%nat -> map fst (combine l1 l2) = l1.
Proof.
  induction l1 as [| x l1 IH]; intros [| y l2] H; simpl in *;
    try reflexivity; try lia.
  rewrite IH; [reflexivity | lia].
Qed.

Lemma map_snd_combine_le {A B : Type} (l1 : list A) : forall l2 : list B,
  (List.length l1 <= List.length l2)%nat ->
  map snd (combine l1 l2) = firstn (List.length l1) l2.
Proof.
  induction l1 as [| x l1 IH]; intros [| y l2] H; simpl in *;
    try reflexivity; try lia.
  rewrite IH; [reflexivity | lia].
Qed.

(** X18: for a selection response that passes the checks, whose column
    names are all different and whose results each hold at least one value
    per column, a successful schema inference makes [execute] succeed, and
    [fetchall] then returns the results in the order of the response, each
    cut to the number of columns (values beyond the column list are
    dropped). *)
Theorem selection_execute_fetchall
  (percent_format : string -> dict string Value -> Res string) operation
  (parameters : option (dict string Value)) r self query payload results d :
  cursor_closed self = false ->
  apply_parameters percent_format operation (get_or parameters []) = Ok query ->
  json r = Some payload ->
  check_payload query (status_code r) payload = Ok tt ->
  aggregationResults payload = None ->
  selectionResults payload = Some results ->
  NoDup (sel_columns results) ->
  sel_results results <> [] ->
  Forall (fun result =>
            (List.length (sel_columns results) <= List.length result)%nat)
    (sel_results results) ->
  get_description_from_rows (selection_rows results) = Ok d ->
  let after :=
    snd (Cursor_execute percent_format operation parameters r self) in
  fst (Cursor_execute percent_format operation parameters r self) = Ok tt
  /\ description after = Some d
  /\ Cursor_fetchall after
     = (Ok (map (firstn (List.length (sel_columns results)))
              (sel_results results)),
        set_results (Some []) after).
Proof.
  intros Hopen Hq Hj Hc Hagg Hsel Hnd Hne Hlong Hdesc.
  assert (Hrows : response_rows percent_format operation parameters r
                  = Ok (selection_rows results)).
  { apply execute_checks_pass with (query := query) (payload := payload);
      try assumption.
    unfold payload_rows. rewrite Hagg, Hsel. reflexivity. }
  pose proof (selection_rows_zip results Hnd) as Hzip.
  assert (Hkeys : Forall (fun row => map fst row = sel_columns results)
                    (selection_rows results)).
  { rewrite Hzip. apply Forall_forall. intros row Hrow.
    apply in_map_iff in Hrow as (result & <- & Hin).
    apply map_fst_combine_le.
    rewrite Forall_forall in Hlong. apply Hlong. exact Hin. }
  assert (Hvalues : map (map snd) (selection_rows results)
                    = map (firstn (List.length (sel_columns results)))
                        (sel_results results)).
  { rewrite Hzip, map_map. apply map_ext_in. intros result Hin.
    apply map_snd_combine_le.
    rewrite Forall_forall in Hlong. apply Hlong. exact Hin. }
  rewrite (execute_open percent_format _ _ _ _ Hopen), Hrows.
  destruct (selection_rows results) as [| first_row rest] eqn:Erows.
  { destruct (sel_results results);
      [contradiction Hne; reflexivity | discriminate Hzip]. }
  cbv zeta. rewrite Hdesc.
  rewrite (Forall_inv Hkeys), (make_Row_same_keys _ _ Hkeys), Hvalues.
  cbn [fst snd]. split; [reflexivity | split; [reflexivity |]].
  apply fetchall_open; [exact Hopen | reflexivity].
Qed.

Lemma selection_execute_fetchall_witness :
  let r :=
    response 200
      (mkPayload (Some 1) (Some 1) None None
         (Some (mkSelection ["a"; "b"]
                  [[VInt 1; VStr "x"]; [VInt 2; VStr "y"; VStr "z"]]))) in
  let after := snd (Cursor_execute no_placeholders "q" None r Cursor_init) in
  fst (Cursor_execute no_placeholders "q" None r Cursor_init) = Ok tt
  /\ description after
     = Some [describe ("a", Some NUMBER); describe ("b", Some STRING)]
  /\ Cursor_fetchall after
     = (Ok (map (firstn 2)
              [[VInt 1; VStr "x"]; [VInt 2; VStr "y"; VStr "z"]]),
        set_results (Some []) after).
Proof.
  apply (selection_execute_fetchall no_placeholders "q" None
           (response 200
              (mkPayload (Some 1) (Some 1) None None
                 (Some (mkSelection ["a"; "b"]
                          [[VInt 1; VStr "x"];
                           [VInt 2; VStr "y"; VStr "z"]]))))
           Cursor_init "q"
           (mkPayload (Some 1) (Some 1) None None
              (Some (mkSelection ["a"; "b"]
                       [[VInt 1; VStr "x"]; [VInt 2; VStr "y"; VStr "z"]])))
           (mkSelection ["a"; "b"]
              [[VInt 1; VStr "x"]; [VInt 2; VStr "y"; VStr "z"]])
           [describe ("a", Some NUMBER); describe ("b", Some STRING)]
           eq_refl eq_refl eq_refl eq_refl eq_refl eq_refl).
  - distinct_strings.
  - discriminate.
  - repeat constructor.
  - reflexivity.
Defined.

(** ** Escaped parameters *)

Lemma escape_items_distinct items : forall acc values,
  NoDup (map fst acc ++ map fst items)%list ->
  mapM escape (map snd items) = Ok values ->
  escape_items items acc = Ok (acc ++ combine (map fst items) values)%list.
Proof.
  induction items as [| [key value] items IH]; intros acc values Hnd H.
  - simpl in H. injection H as <-. simpl. rewrite app_nil_r. reflexivity.
  - simpl in H. cbn [escape_items].
    destruct (escape value) as [e |]; cbn [bind] in H |- *; [| discriminate H].
    destruct (mapM escape (map snd items)) as [es |] eqn:E; cbn [bind] in H;
      [| discriminate H].
    injection H as <-. simpl in Hnd.
    assert (Hnew : dict_get String.eqb key acc = None).
    { apply (dict_get_None String.eqb string_eqb_eq). intros Hin.
      apply NoDup_remove_2 in Hnd. apply Hnd. apply in_or_app. left. exact Hin. }
    rewrite (dict_set_new String.eqb key e acc Hnew).
    rewrite (IH _ es); [| | reflexivity].
    + rewrite <- app_assoc. reflexivity.
    + rewrite map_app, <- app_assoc. exact Hnd.
Qed.

Lemma escape_items_raise items : forall acc e,
  mapM escape (map snd items) = Raise e ->
  escape_items items acc = Raise e.
Proof.
  induction items as [| [key value] items IH]; intros acc e H;
    [discriminate H |].
  simpl in H. cbn [escape_items].
  destruct (escape value) as [v | e0]; cbn [bind] in H |- *.
  - destruct (mapM escape (map snd items)) as [es | e1] eqn:E; cbn [bind] in H;
      [discriminate H |].
    injection H as ->. apply IH. reflexivity.
  - injection H as ->. reflexivity.
Qed.

(** X19: [apply_parameters] interpolates a dictionary with the same names
    in the same order, each parameter replaced by what [escape] makes of it;
    if [escape] raises for a parameter, so does [apply_parameters], with the
    same exception.  In particular text parameters reach the interpolation
    quoted, with their quotes doubled. *)
Theorem apply_parameters_escapes
  (percent_format : string -> dict string Value -> Res string) operation
  (parameters : dict string Value) :
  NoDup (map fst parameters) ->
  (forall values,
     mapM escape (map snd parameters) = Ok values ->
     apply_parameters percent_format operation parameters
     = percent_format operation (combine (map fst parameters) values))
  /\ (forall e,
        mapM escape (map snd parameters) = Raise e ->
        apply_parameters percent_format operation parameters = Raise e)
  /\ (forall texts,
        map snd parameters = map VStr texts ->
        apply_parameters percent_format operation parameters
        = percent_format operation
            (combine (map fst parameters)
               (map (fun s => VStr (escaped_text s)) texts))).
Proof.
  intros Hnd.
  assert (Hok : forall values,
            mapM escape (map snd parameters) = Ok values ->
            apply_parameters percent_format operation parameters
            = percent_format operation (combine (map fst parameters) values)).
  { intros values H. unfold apply_parameters.
    rewrite (escape_items_distinct parameters [] values Hnd H). reflexivity. }
  split; [exact Hok | split].
  - intros e H. unfold apply_parameters.
    rewrite (escape_items_raise parameters [] e H). reflexivity.
  - intros texts Htexts. apply Hok. rewrite Htexts.
    clear. induction texts as [| s texts IH]; [reflexivity |].
    simpl map. cbn [mapM]. rewrite escape_str. cbn [bind].
    rewrite IH. reflexivity.
Qed.

Lemma apply_parameters_escapes_witness :
  apply_parameters no_placeholders "q" [("name", VStr "O'Hara")]
  = no_placeholders "q" [("name", VStr "'O''Hara'")].
Proof.
  apply (proj2 (proj2 (apply_parameters_escapes no_placeholders "q"
                         [("name", VStr "O'Hara")]
                         ltac:(distinct_strings)))
           ["O'Hara"] eq_refl).
Defined.
